(** * Groxy: the TTL cache (cache.py) and the proxy rotation manager
      (proxy_manager.py)

    A shallow embedding of the two modules and the properties of their
    specification.

    Conventions of the embedding.
    - Instants ([time.time()], [datetime.now()]) are integers counting
      microseconds; a whole number [n] of seconds is [n * 1000000].
      Floating-point rounding of the clock is not modelled.
    - A method that mutates [self] is a computation in the monad [M S]:
      it takes the object, and returns a result (a value or a raised
      exception) together with the mutated object.
    - What comes from outside the process (the clock, the random generator,
      the outcome of a network probe, the user agent of the generator) is
      an argument of the operation, so that a property stated for all
      arguments holds whatever the outside does.
    - The libraries that the two modules call are modelled by what they
      document: [collections.OrderedDict] as the list of its bindings in
      insertion order, [set] and [dict] as stdpp's [gset] and [gmap], the
      [json] codec on the fragment of JSON without floats, the redis client
      by the commands SETEX, GET and DEL against one server. *)

From Stdlib Require Import ZArith String Ascii List Bool Lia.
From Stdlib Require Import DecimalString.
From stdpp Require Import gmap strings list fin_maps.

Local Open Scope string_scope.
Local Open Scope Z_scope.
Local Open Scope list_scope.
Set Warnings "-register-all,-clear-no-such-hyp".

(* ===================================================================== *)
(** ** Python values, exceptions, and effectful computations *)
(* ===================================================================== *)

Module Py.

(** The Python values that cached payloads are made of. [PSet] stands for
    the values that the [json] module cannot serialize. *)
Inductive pyval : Type :=
| PNone
| PBool (b : bool)
| PInt (n : Z)
| PStr (s : string)
| PList (l : list pyval)
| PDict (d : list (string * pyval))
| PSet (l : list pyval).

(** [x is None] *)
Definition is_None (v : pyval) : bool :=
  match v with PNone => true | _ => false end.

(** The exceptions that the two modules can meet. *)
Inductive exn : Type :=
| KeyError
| IndexError
| TypeError
| ValueError
| JSONDecodeError
| RedisConnectionError
| RedisResponseError.

(** [except Exception] *)
Definition Exception (e : exn) : bool := true.

(** [redis.RedisError] is the base class of the client's errors. *)
Definition RedisError (e : exn) : bool :=
  match e with
  | RedisConnectionError | RedisResponseError => true
  | _ => false
  end.

(** [except (redis.RedisError, json.JSONDecodeError)] *)
Definition RedisError_or_JSONDecodeError (e : exn) : bool :=
  match e with
  | RedisConnectionError | RedisResponseError | JSONDecodeError => true
  | _ => false
  end.

Inductive result (A : Type) : Type :=
| Ok (a : A)
| Raise (e : exn).
Arguments Ok {A} a.
Arguments Raise {A} e.

(** A computation over a mutable object of type [S]. Mutations made
    before an exception is raised stay in place. *)
Definition M (S A : Type) : Type := S -> result A * S.

Definition ret {S A} (a : A) : M S A := fun s => (Ok a, s).

Definition raise {S A} (e : exn) : M S A := fun s => (Raise e, s).

Definition bind {S A B} (m : M S A) (k : A -> M S B) : M S B :=
  fun s =>
    match m s with
    | (Ok a, s') => k a s'
    | (Raise e, s') => (Raise e, s')
    end.

Definition get {S} : M S S := fun s => (Ok s, s).

(** [try: body except <handles> as e: handler e] *)
Definition try_except {S A} (body : M S A) (handles : exn -> bool)
    (handler : exn -> M S A) : M S A :=
  fun s =>
    match body s with
    | (Ok a, s') => (Ok a, s')
    | (Raise e, s') => if handles e then handler e s' else (Raise e, s')
    end.

(** Lifts a pure, possibly failing step. *)
Definition lift {S A} (r : result A) : M S A := fun s => (r, s).

(** [Union[int, timedelta]]: a number of seconds, or a [timedelta], which
    is a whole number of microseconds. *)
Inductive ttl_arg : Type :=
| TtlInt (seconds : Z)
| TtlDelta (microseconds : Z).

Definition second : Z := 1000000.

(** [int(ttl.total_seconds())]: [int] truncates towards zero. *)
Definition int_total_seconds (microseconds : Z) : Z :=
  Z.quot microseconds second.

(** [if isinstance(ttl, timedelta): ttl = int(ttl.total_seconds())] *)
Definition ttl_seconds (ttl : ttl_arg) : Z :=
  match ttl with
  | TtlInt n => n
  | TtlDelta us => int_total_seconds us
  end.


(** [except redis.ConnectionError] *)
Definition ConnectionError (e : exn) : bool :=
  match e with
  | RedisConnectionError => true
  | _ => false
  end.

End Py.
Export Py.

Declare Scope py_scope.
Delimit Scope py_scope with py.
Notation "x <- c1 ;; c2" := (bind c1 (fun x => c2))
  (at level 100, c1 at next level, right associativity) : py_scope.
Notation "c1 ;;; c2" := (bind c1 (fun _ => c2))
  (at level 100, right associativity) : py_scope.

(* ===================================================================== *)
(** ** collections.OrderedDict with string keys *)
(* ===================================================================== *)

Module OrderedDict.

(** The bindings in insertion order, oldest first. *)
Definition t (V : Type) : Type := list (string * V).

Section Ops.
Context {V : Type}.

Definition keys (d : t V) : list string := map fst d.

(** [d.get(key)] *)
Fixpoint lookup (d : t V) (key : string) : option V :=
  match d with
  | [] => None
  | (k, v) :: d' => if String.eqb k key then Some v else lookup d' key
  end.

(** [key in d] *)
Definition contains (d : t V) (key : string) : bool :=
  match lookup d key with Some _ => true | None => false end.

(** [d[key] = v]: a present key keeps its position, a new key goes to
    the end. *)
Fixpoint setitem (d : t V) (key : string) (v : V) : t V :=
  match d with
  | [] => [(key, v)]
  | (k, w) :: d' =>
      if String.eqb k key then (k, v) :: d'
      else (k, w) :: setitem d' key v
  end.

(** The bindings left by [del d[key]]. *)
Fixpoint remove (d : t V) (key : string) : t V :=
  match d with
  | [] => []
  | (k, w) :: d' =>
      if String.eqb k key then d' else (k, w) :: remove d' key
  end.

(** [d[key]] raises [KeyError] on an absent key. *)
Definition getitem (d : t V) (key : string) : result V :=
  match lookup d key with
  | Some v => Ok v
  | None => Raise KeyError
  end.

(** [del d[key]] raises [KeyError] on an absent key. *)
Definition delitem (d : t V) (key : string) : result (t V) :=
  if contains d key then Ok (remove d key) else Raise KeyError.

(** [d.popitem(last=False)] removes the oldest binding and raises
    [KeyError] on an empty dictionary. *)
Definition popitem_first (d : t V) : result ((string * V) * t V) :=
  match d with
  | [] => Raise KeyError
  | kv :: d' => Ok (kv, d')
  end.

(** A dictionary holds a key at most once. *)
Definition wf (d : t V) : Prop := NoDup (keys d).

End Ops.

End OrderedDict.

(* ===================================================================== *)
(** ** cache.py: InMemoryCache *)
(* ===================================================================== *)

Module InMemoryCache.
Import OrderedDict.
Local Open Scope py_scope.

(** A cached payload with its expiry instant: [(data, expires_at)]. *)
Definition entry : Type := (pyval * Z)%type.

Record t : Type := mk {
  cache : OrderedDict.t entry;
  max_size : Z
}.

(** [__init__(self, max_size=1000)] *)
Definition __init__ (max_size : Z) : t := {| cache := []; max_size := max_size |}.

Definition default_max_size : Z := 1000.

(** The instant at which an entry stored at [now] expires:
    [time.time() + ttl], after the conversion of [ttl]. *)
Definition expiry (ttl : ttl_arg) (now : Z) : Z :=
  (now + ttl_seconds ttl * second)%Z.

(** The object with its dictionary replaced. *)
Definition with_cache (self : t) (c : OrderedDict.t entry) : t :=
  {| cache := c; max_size := max_size self |}.

Definition set_cache (c : OrderedDict.t entry) : M t unit :=
  fun self => (Ok tt, {| cache := c; max_size := max_size self |}).

(** [cache_data(self, key, data, ttl)]; [now] is what [time.time()]
    returns. *)
Definition cache_data (key : string) (data : pyval) (ttl : ttl_arg)
    (now : Z) : M t bool :=
  try_except
    (let ttl := ttl_seconds ttl in
     self <- get ;;
     (if Z.of_nat (length (cache self)) >=? max_size self
      then (r <- lift (popitem_first (cache self)) ;; set_cache (snd r))
      else ret tt) ;;;
     let expires_at := now + ttl * second in
     self <- get ;;
     set_cache (setitem (cache self) key (data, expires_at)) ;;;
     ret true)
    Exception
    (fun _ => ret false).

(** [get_cached_data(self, key, default)] *)
Definition get_cached_data (key : string) (default : pyval) (now : Z)
    : M t pyval :=
  try_except
    (self <- get ;;
     if negb (contains (cache self) key) then ret default
     else
       e <- lift (getitem (cache self) key) ;;
       let '(data, expires_at) := e in
       if now >? expires_at then
         (c <- lift (delitem (cache self) key) ;; set_cache c) ;;;
         ret default
       else ret data)
    Exception
    (fun _ => ret default).

(** [delete_cached_data(self, key)] *)
Definition delete_cached_data (key : string) : M t bool :=
  try_except
    (self <- get ;;
     (if contains (cache self) key
      then (c <- lift (delitem (cache self) key) ;; set_cache c)
      else ret tt) ;;;
     ret true)
    Exception
    (fun _ => ret false).

(** [clear_cache(self, pattern)]: the pattern is not looked at. *)
Definition clear_cache (pattern : string) : M t bool :=
  try_except
    (set_cache [] ;;; ret true)
    Exception
    (fun _ => ret false).

End InMemoryCache.

(* ===================================================================== *)
(** ** The json module: [json.dumps] and [json.loads] *)
(* ===================================================================== *)

(** The codec on the float-free fragment of JSON: [null], booleans,
    integers, strings, arrays and objects. A character of a [string] is a
    code point below 256. Number literals with a fraction or an exponent
    denote floats, which [pyval] leaves out; the decoder gives no value
    for them. *)
Module Json.
Local Open Scope string_scope.

Definition dquote : ascii := ascii_of_nat 34.
Definition backslash : ascii := ascii_of_nat 92.

Definition hex_digit (n : nat) : ascii :=
  if (n <? 10)%nat then ascii_of_nat (48 + n) else ascii_of_nat (87 + n).

(** The escape of one character under [ensure_ascii=True]. *)
Definition escape_char (c : ascii) : string :=
  let n := nat_of_ascii c in
  if (n =? 34)%nat then String backslash (String dquote EmptyString)
  else if (n =? 92)%nat then String backslash (String backslash EmptyString)
  else if (n =? 10)%nat then String backslash "n"
  else if (n =? 13)%nat then String backslash "r"
  else if (n =? 9)%nat then String backslash "t"
  else if (n =? 8)%nat then String backslash "b"
  else if (n =? 12)%nat then String backslash "f"
  else if ((32 <=? n) && (n <=? 126))%nat then String c EmptyString
  else String backslash
         (String "u" (String "0" (String "0"
            (String (hex_digit (n / 16)) (String (hex_digit (n mod 16))
               EmptyString))))).

Fixpoint escape (s : string) : string :=
  match s with
  | EmptyString => EmptyString
  | String c s' => escape_char c ++ escape s'
  end.

Definition encode_str (s : string) : string :=
  String dquote (escape s ++ String dquote EmptyString).

Definition encode_int (n : Z) : string :=
  NilZero.string_of_int (Z.to_int n).

(** [", ".join(chunks)] *)
Fixpoint join (chunks : list string) : string :=
  match chunks with
  | [] => EmptyString
  | [c] => c
  | c :: cs => c ++ ", " ++ join cs
  end.

(** [json.dumps(v)]; a value outside JSON raises [TypeError]. *)
Fixpoint dumps (v : pyval) : result string :=
  match v with
  | PNone => Ok "null"
  | PBool true => Ok "true"
  | PBool false => Ok "false"
  | PInt n => Ok (encode_int n)
  | PStr s => Ok (encode_str s)
  | PList l =>
      match
        (fix items (l : list pyval) : result (list string) :=
           match l with
           | [] => Ok []
           | x :: r =>
               match dumps x with
               | Ok s =>
                   match items r with
                   | Ok ss => Ok (s :: ss)
                   | Raise e => Raise e
                   end
               | Raise e => Raise e
               end
           end) l
      with
      | Ok ss => Ok ("[" ++ join ss ++ "]")
      | Raise e => Raise e
      end
  | PDict d =>
      match
        (fix members (d : list (string * pyval)) : result (list string) :=
           match d with
           | [] => Ok []
           | (k, x) :: r =>
               match dumps x with
               | Ok s =>
                   match members r with
                   | Ok ss => Ok ((encode_str k ++ ": " ++ s) :: ss)
                   | Raise e => Raise e
                   end
               | Raise e => Raise e
               end
           end) d
      with
      | Ok ss => Ok ("{" ++ join ss ++ "}")
      | Raise e => Raise e
      end
  | PSet _ => Raise TypeError
  end.

(** *** Decoding *)

Definition is_ws (c : ascii) : bool :=
  let n := nat_of_ascii c in
  ((n =? 32) || (n =? 9) || (n =? 10) || (n =? 13))%nat.

Fixpoint skip_ws (s : list ascii) : list ascii :=
  match s with
  | c :: r => if is_ws c then skip_ws r else s
  | [] => []
  end.

Definition digit_val (c : ascii) : option Z :=
  let n := nat_of_ascii c in
  if ((48 <=? n) && (n <=? 57))%nat then Some (Z.of_nat (n - 48)) else None.

Definition hex_val (c : ascii) : option nat :=
  let n := nat_of_ascii c in
  if ((48 <=? n) && (n <=? 57))%nat then Some (n - 48)%nat
  else if ((97 <=? n) && (n <=? 102))%nat then Some (n - 87)%nat
  else if ((65 <=? n) && (n <=? 70))%nat then Some (n - 55)%nat
  else None.

(** The digits at the head of [s], read after the value [acc]. *)
Fixpoint digits (s : list ascii) (acc : Z) : Z * list ascii :=
  match s with
  | c :: r =>
      match digit_val c with
      | Some d => digits r (10 * acc + d)
      | None => (acc, s)
      end
  | [] => (acc, [])
  end.

(** A literal followed by a fraction or an exponent is a float. *)
Definition float_follows (s : list ascii) : bool :=
  match s with
  | c :: _ =>
      let n := nat_of_ascii c in ((n =? 46) || (n =? 101) || (n =? 69))%nat
  | [] => false
  end.

(** An unsigned integer literal: [0], or a non-zero digit and digits. *)
Definition parse_nat (s : list ascii) : option (Z * list ascii) :=
  match s with
  | c :: r =>
      match digit_val c with
      | Some 0 => if float_follows r then None else Some (0, r)
      | Some d =>
          let '(n, r') := digits r d in
          if float_follows r' then None else Some (n, r')
      | None => None
      end
  | [] => None
  end.

Definition unescape (c : ascii) : option ascii :=
  let n := nat_of_ascii c in
  if (n =? 34)%nat then Some dquote
  else if (n =? 92)%nat then Some backslash
  else if (n =? 47)%nat then Some "/"%char
  else if (n =? 110)%nat then Some (ascii_of_nat 10)
  else if (n =? 114)%nat then Some (ascii_of_nat 13)
  else if (n =? 116)%nat then Some (ascii_of_nat 9)
  else if (n =? 98)%nat then Some (ascii_of_nat 8)
  else if (n =? 102)%nat then Some (ascii_of_nat 12)
  else None.

Definition hex4 (a b c d : ascii) : option ascii :=
  match hex_val a, hex_val b, hex_val c, hex_val d with
  | Some 0%nat, Some 0%nat, Some x, Some y => Some (ascii_of_nat (16 * x + y))
  | _, _, _, _ => None
  end.

(** The characters of a string literal, after its opening quote. *)
Fixpoint parse_chars (s : list ascii) : option (string * list ascii) :=
  match s with
  | [] => None
  | c :: r =>
      let n := nat_of_ascii c in
      if (n =? 34)%nat then Some (EmptyString, r)
      else if (n =? 92)%nat then
        match r with
        | e :: r' =>
            if (nat_of_ascii e =? 117)%nat then
              match r' with
              | h1 :: h2 :: h3 :: h4 :: r'' =>
                  match hex4 h1 h2 h3 h4, parse_chars r'' with
                  | Some ch, Some (t, rest) => Some (String ch t, rest)
                  | _, _ => None
                  end
              | _ => None
              end
            else
              match unescape e, parse_chars r' with
              | Some ch, Some (t, rest) => Some (String ch t, rest)
              | _, _ => None
              end
        | [] => None
        end
      else if (n <? 32)%nat then None
      else
        match parse_chars r with
        | Some (t, rest) => Some (String c t, rest)
        | None => None
        end
  end.

(** Whether [s] starts with the word [w]; gives the rest of [s]. *)
Fixpoint expect (w : list ascii) (s : list ascii) : option (list ascii) :=
  match w, s with
  | [], _ => Some s
  | a :: w', b :: s' => if Ascii.eqb a b then expect w' s' else None
  | _ :: _, [] => None
  end.

(** A dict built from the members of an object: a repeated key keeps its
    first position and takes the last value. *)
Definition dict_of (members : list (string * pyval)) : list (string * pyval) :=
  fold_left (fun d kv => OrderedDict.setitem d (fst kv) (snd kv)) members [].

Fixpoint parse_value (fuel : nat) (s : list ascii) {struct fuel}
    : option (pyval * list ascii) :=
  match fuel with
  | O => None
  | S f =>
      match skip_ws s with
      | [] => None
      | c :: r =>
          let n := nat_of_ascii c in
          if (n =? 110)%nat then
            option_map (fun r' => (PNone, r')) (expect (list_ascii_of_string "ull") r)
          else if (n =? 116)%nat then
            option_map (fun r' => (PBool true, r')) (expect (list_ascii_of_string "rue") r)
          else if (n =? 102)%nat then
            option_map (fun r' => (PBool false, r')) (expect (list_ascii_of_string "alse") r)
          else if (n =? 34)%nat then
            option_map (fun p => (PStr (fst p), snd p)) (parse_chars r)
          else if (n =? 45)%nat then
            option_map (fun p => (PInt (- fst p), snd p)) (parse_nat r)
          else if (n =? 91)%nat then
            match skip_ws r with
            | c' :: r' =>
                if (nat_of_ascii c' =? 93)%nat then Some (PList [], r')
                else option_map (fun p => (PList (fst p), snd p))
                       (parse_elements f r)
            | [] => None
            end
          else if (n =? 123)%nat then
            match skip_ws r with
            | c' :: r' =>
                if (nat_of_ascii c' =? 125)%nat then Some (PDict [], r')
                else option_map (fun p => (PDict (dict_of (fst p)), snd p))
                       (parse_members f r)
            | [] => None
            end
          else
            option_map (fun p => (PInt (fst p), snd p)) (parse_nat (c :: r))
      end
  end
with parse_elements (fuel : nat) (s : list ascii) {struct fuel}
    : option (list pyval * list ascii) :=
  match fuel with
  | O => None
  | S f =>
      match parse_value f s with
      | Some (v, r) =>
          match skip_ws r with
          | c :: r' =>
              if (nat_of_ascii c =? 44)%nat then
                option_map (fun p => (v :: fst p, snd p)) (parse_elements f r')
              else if (nat_of_ascii c =? 93)%nat then Some ([v], r')
              else None
          | [] => None
          end
      | None => None
      end
  end
with parse_members (fuel : nat) (s : list ascii) {struct fuel}
    : option (list (string * pyval) * list ascii) :=
  match fuel with
  | O => None
  | S f =>
      match skip_ws s with
      | q :: r =>
          if (nat_of_ascii q =? 34)%nat then
            match parse_chars r with
            | Some (k, r1) =>
                match skip_ws r1 with
                | c :: r2 =>
                    if (nat_of_ascii c =? 58)%nat then
                      match parse_value f r2 with
                      | Some (v, r3) =>
                          match skip_ws r3 with
                          | c' :: r4 =>
                              if (nat_of_ascii c' =? 44)%nat then
                                option_map (fun p => ((k, v) :: fst p, snd p))
                                  (parse_members f r4)
                              else if (nat_of_ascii c' =? 125)%nat
                              then Some ([(k, v)], r4)
                              else None
                          | [] => None
                          end
                      | None => None
                      end
                    else None
                | [] => None
                end
            | None => None
            end
          else None
      | [] => None
      end
  end.

(** [json.loads(s)]: one value, with nothing but white space after it.
    The length of the text bounds the depth of the calls. *)
Definition loads (s : string) : result pyval :=
  let text := list_ascii_of_string s in
  match parse_value (S (length text)) text with
  | Some (v, r) =>
      match skip_ws r with
      | [] => Ok v
      | _ :: _ => Raise JSONDecodeError
      end
  | None => Raise JSONDecodeError
  end.


End Json.

(* ===================================================================== *)
(** ** The redis client, as cache.py uses it *)
(* ===================================================================== *)

(** [redis.Redis(..., decode_responses=True)] against one server: the
    commands SETEX, GET and DEL of the Redis command reference. A command
    sent while the server cannot be reached raises
    [redis.ConnectionError]. *)
Module RedisClient.
Local Open Scope py_scope.

Record t : Type := mk {
  (** key -> (value, expiry instant if the key has one) *)
  db : gmap string (string * option Z);
  reachable : bool
}.

(** A key is gone once the clock has passed its expiry instant. *)
Definition live (now : Z) (e : string * option Z) : bool :=
  match snd e with
  | Some at_ => negb (now >? at_)%Z
  | None => true
  end.

Definition set_db (d : gmap string (string * option Z)) : M t unit :=
  fun c => (Ok tt, {| db := d; reachable := reachable c |}).

(** The client with the contents of its server replaced. *)
Definition with_db (c : t) (d : gmap string (string * option Z)) : t :=
  {| db := d; reachable := reachable c |}.

Definition command {A} (body : M t A) : M t A :=
  c <- get ;;
  if reachable c then body else raise RedisConnectionError.

(** [SETEX key seconds value]: the server refuses an expire time that is
    not positive; the client returns [True] on the reply OK. *)
Definition setex (key : string) (seconds : Z) (value : string) (now : Z)
    : M t bool :=
  command
    (if (seconds <=? 0)%Z then raise RedisResponseError
     else
       c <- get ;;
       set_db (<[key := (value, Some (now + seconds * second))]> (db c)) ;;;
       ret true).

(** [GET key]: [None] when the key does not exist. *)
Definition get_ (key : string) (now : Z) : M t (option string) :=
  command
    (c <- get ;;
     match db c !! key with
     | Some e =>
         if live now e then ret (Some (fst e))
         else (set_db (delete key (db c)) ;;; ret None)
     | None => ret None
     end).

(** [DEL key]: the number of keys that were removed. *)
Definition delete_ (key : string) (now : Z) : M t Z :=
  command
    (c <- get ;;
     match db c !! key with
     | Some e =>
         set_db (delete key (db c)) ;;;
         ret (if live now e then 1 else 0)
     | None => ret 0
     end).

(** [PING] *)
Definition ping : M t bool := command (ret true).

(** [KEYS pattern]: the keys that exist and match the pattern; [glob] is
    the pattern matching of the server. *)
Definition keys (glob : string -> string -> bool) (pattern : string)
    (now : Z) : M t (list string) :=
  command
    (c <- get ;;
     ret (map fst
            (List.filter
               (fun kv => glob pattern (fst kv) && live now (snd kv))
               (map_to_list (db c))))).

(** The keys of [DEL key ...] taken one after the other: the number of
    keys removed, and what is left of the data. *)
Fixpoint delete_keys (ks : list string) (now : Z)
    (d : gmap string (string * option Z))
    : Z * gmap string (string * option Z) :=
  match ks with
  | [] => (0, d)
  | k :: ks' =>
      let removed :=
        match d !! k with
        | Some e => if live now e then 1 else 0
        | None => 0
        end in
      let '(n, d') := delete_keys ks' now (delete k d) in
      (removed + n, d')
  end.

(** [DEL key ...]: the number of keys that were removed. *)
Definition delete_many (ks : list string) (now : Z) : M t Z :=
  command
    (c <- get ;;
     let '(n, d) := delete_keys ks now (db c) in
     set_db d ;;; ret n).

End RedisClient.

(* ===================================================================== *)
(** ** cache.py: RedisCache *)
(* ===================================================================== *)

Module RedisCache.
Local Open Scope py_scope.

(** The object's only attribute is [self.redis_client]. *)
Definition t : Type := RedisClient.t.

(** [bool(n)] for an integer *)
Definition bool_of_int (n : Z) : bool := negb (n =? 0)%Z.

(** [cache_data(self, key, data, ttl)] *)
Definition cache_data (key : string) (data : pyval) (ttl : ttl_arg)
    (now : Z) : M t bool :=
  try_except
    (let ttl := ttl_seconds ttl in
     serialized_data <- lift (Json.dumps data) ;;
     r <- RedisClient.setex key ttl serialized_data now ;;
     ret r)
    RedisError_or_JSONDecodeError
    (fun _ => ret false).

(** [get_cached_data(self, key, default)] *)
Definition get_cached_data (key : string) (default : pyval) (now : Z)
    : M t pyval :=
  try_except
    (cached <- RedisClient.get_ key now ;;
     match cached with
     | None => ret default
     | Some text => lift (Json.loads text)
     end)
    RedisError_or_JSONDecodeError
    (fun _ => ret default).

(** [delete_cached_data(self, key)] *)
Definition delete_cached_data (key : string) (now : Z) : M t bool :=
  try_except
    (n <- RedisClient.delete_ key now ;; ret (bool_of_int n))
    RedisError
    (fun _ => ret false).

(** [__init__(self, host, port, ...)]: the client is built and the
    connection tested; a [redis.ConnectionError] is logged and raised
    again. [server] is the server at the given host and port. *)
Definition __init__ (server : RedisClient.t) : result t :=
  match
    try_except (RedisClient.ping ;;; ret tt) ConnectionError
      (fun e => raise e) server
  with
  | (Ok _, redis_client) => Ok redis_client
  | (Raise e, _) => Raise e
  end.

(** [clear_cache(self, pattern)]; the clock reads [now] at KEYS and
    [later] at DEL. *)
Definition clear_cache (glob : string -> string -> bool) (pattern : string)
    (now later : Z) : M t bool :=
  try_except
    (keys <- RedisClient.keys glob pattern now ;;
     match keys with
     | _ :: _ =>
         n <- RedisClient.delete_many keys later ;; ret (bool_of_int n)
     | [] => ret true
     end)
    RedisError
    (fun _ => ret false).

End RedisCache.

(* ===================================================================== *)
(** ** cache.py: the default instance and the decorator cache_response *)
(* ===================================================================== *)

Module Cache.
Local Open Scope string_scope.
Local Open Scope py_scope.

(** The two classes that [default_cache] can be an instance of. *)
Inductive instance : Type :=
| InMemory (c : InMemoryCache.t)
| Redis (c : RedisCache.t).

(** Runs a method of the wrapped object. *)
Definition on_memory {A} (m : M InMemoryCache.t A) (c : InMemoryCache.t)
    : result A * instance :=
  let '(r, c') := m c in (r, InMemory c').

Definition on_redis {A} (m : M RedisCache.t A) (c : RedisCache.t)
    : result A * instance :=
  let '(r, c') := m c in (r, Redis c').

(** [default_cache.cache_data(key, data, ttl)] *)
Definition cache_data (key : string) (data : pyval) (ttl : ttl_arg)
    (now : Z) : M instance bool :=
  fun self =>
    match self with
    | InMemory c => on_memory (InMemoryCache.cache_data key data ttl now) c
    | Redis c => on_redis (RedisCache.cache_data key data ttl now) c
    end.

(** [default_cache.get_cached_data(key, default)] *)
Definition get_cached_data (key : string) (default : pyval) (now : Z)
    : M instance pyval :=
  fun self =>
    match self with
    | InMemory c => on_memory (InMemoryCache.get_cached_data key default now) c
    | Redis c => on_redis (RedisCache.get_cached_data key default now) c
    end.


(** A server that can be reached and holds no key. *)
Definition empty_server : RedisCache.t :=
  {| RedisClient.db := ∅; RedisClient.reachable := true |}.

Section Decorator.
(** The state that the wrapped coroutine [func] works on, and the
    arguments of a call. *)
Context {W Args : Type}.

(** What a call of the wrapper can touch: the module's [default_cache],
    the state of [func], and a count of the executions of [func]. *)
Record process : Type := mkp {
  default_cache : option instance;
  world : W;
  executions : nat
}.

(** [await func(args)], counted *)
Definition await (func : Args -> M W pyval) (args : Args) : M process pyval :=
  fun p =>
    let '(r, w) := func args (world p) in
    (r, {| default_cache := default_cache p; world := w;
           executions := S (executions p) |}).

(** A method call on [default_cache], which is not [None]. *)
Definition with_cache {A} (m : M instance A) (c : instance) : M process A :=
  fun p =>
    let '(r, c') := m c in
    (r, {| default_cache := Some c'; world := world p;
           executions := executions p |}).

(** [f"{func.__name__}:{hash(str(args) + str(kwargs))}"]; [repr] is
    [str(args) + str(kwargs)]. *)
Definition cache_key (name : string) (hash : string -> Z)
    (repr : Args -> string) (args : Args) : string :=
  name ++ ":" ++ Json.encode_int (hash (repr args)).

(** The wrapper [cache_response(ttl)(func)], called; the clock reads
    [now] at the lookup and [later] at the store. *)
Definition cache_response (ttl : ttl_arg) (name : string)
    (hash : string -> Z) (repr : Args -> string)
    (func : Args -> M W pyval) (args : Args) (now later : Z)
    : M process pyval :=
  p <- get ;;
  match default_cache p with
  | None => await func args
  | Some c =>
      let cache_key := cache_key name hash repr args in
      cached_response <- with_cache (get_cached_data cache_key PNone now) c ;;
      if negb (is_None cached_response) then ret cached_response
      else
        response <- await func args ;;
        p <- get ;;
        match default_cache p with
        | None => ret response  (* not met: the name is bound once *)
        | Some c =>
            with_cache (cache_data cache_key response ttl later) c ;;;
            ret response
        end
  end.

(** Successive calls of the wrapper with the same arguments; a call takes
    the two readings of the clock, at its lookup and at its store. It
    gives the results, and the process after the last call. *)
Fixpoint call_repeatedly (ttl : ttl_arg) (name : string)
    (hash : string -> Z) (repr : Args -> string)
    (func : Args -> M W pyval) (args : Args) (times : list (Z * Z))
    (p : process) : list (result pyval) * process :=
  match times with
  | [] => ([], p)
  | (now, later) :: times' =>
      let '(r, p') := cache_response ttl name hash repr func args now later p in
      let '(rs, p'') :=
        call_repeatedly ttl name hash repr func args times' p' in
      (r :: rs, p'')
  end.

End Decorator.

(** A lookup of the key, at any instant, gives [None]. *)
Definition misses (store : instance) (key : string) : Prop :=
  forall now, fst (get_cached_data key PNone now store) = Ok PNone.


End Cache.

(* ===================================================================== *)
(** ** proxy_manager.py: ProxyManager *)
(* ===================================================================== *)

Module ProxyManager.
Local Open Scope py_scope.

Record t : Type := mk {
  proxies : list string;
  healthy_proxies : gset string;
  unhealthy_proxies : gset string;
  (** proxy -> instant of its last health check *)
  proxy_health_checks : gmap string Z;
  check_proxy_health : bool;
  _use_fake_ua : bool;
  user_agents : list string
}.

(** The fallback user agents of [__init__]. *)
Definition fallback_user_agents : list string :=
  [ "Mozilla/5.0 (Windows NT 10.0; Win64; x64) AppleWebKit/537.36 (KHTML, like Gecko) Chrome/122.0.0.0 Safari/537.36";
    "Mozilla/5.0 (Macintosh; Intel Mac OS X 10_15_7) AppleWebKit/605.1.15 (KHTML, like Gecko) Version/17.0 Safari/605.1.15";
    "Mozilla/5.0 (Windows NT 10.0; Win64; x64; rv:123.0) Gecko/20100101 Firefox/123.0";
    "Mozilla/5.0 (X11; Linux x86_64) AppleWebKit/537.36 (KHTML, like Gecko) Chrome/122.0.0.0 Safari/537.36";
    "Mozilla/5.0 (iPhone; CPU iPhone OS 17_3_1 like Mac OS X) AppleWebKit/605.1.15 (KHTML, like Gecko) Version/17.0 Mobile/15E148 Safari/604.1";
    "Mozilla/5.0 (iPad; CPU OS 17_3_1 like Mac OS X) AppleWebKit/605.1.15 (KHTML, like Gecko) Version/17.0 Mobile/15E148 Safari/604.1" ].

(** [timedelta(minutes=30)] *)
Definition recheck_interval : Z := 30 * 60 * second.

(** [x or y] on an optional list: an absent or empty list is falsy. *)
Definition or_list {A} (x : option (list A)) (y : list A) : list A :=
  match x with
  | Some (a :: l) => a :: l
  | Some [] | None => y
  end.

(** The truth value of an optional list. *)
Definition truthy {A} (x : option (list A)) : bool :=
  match x with
  | Some (_ :: _) => true
  | Some [] | None => false
  end.

(** [random.choice(seq)]: the element at the index drawn below
    [len(seq)]; [draw] is the raw draw of the generator. An empty
    sequence raises [IndexError]. *)
Definition random_choice {A} (draw : nat) (seq : list A) : result A :=
  match seq with
  | [] => Raise IndexError
  | x :: _ => Ok (nth (draw mod length seq) seq x)
  end.

(** *** Updates of the attributes *)

Definition add_healthy (proxy : string) : M t unit :=
  fun s => (Ok tt,
    {| proxies := proxies s;
       healthy_proxies := healthy_proxies s ∪ {[proxy]};
       unhealthy_proxies := unhealthy_proxies s;
       proxy_health_checks := proxy_health_checks s;
       check_proxy_health := check_proxy_health s;
       _use_fake_ua := _use_fake_ua s;
       user_agents := user_agents s |}).

Definition add_unhealthy (proxy : string) : M t unit :=
  fun s => (Ok tt,
    {| proxies := proxies s;
       healthy_proxies := healthy_proxies s;
       unhealthy_proxies := unhealthy_proxies s ∪ {[proxy]};
       proxy_health_checks := proxy_health_checks s;
       check_proxy_health := check_proxy_health s;
       _use_fake_ua := _use_fake_ua s;
       user_agents := user_agents s |}).

(** [self.unhealthy_proxies.remove(proxy)] raises [KeyError] when the
    proxy is not in the set. *)
Definition remove_unhealthy (proxy : string) : M t unit :=
  fun s =>
    if decide (proxy ∈ unhealthy_proxies s) then
      (Ok tt,
       {| proxies := proxies s;
          healthy_proxies := healthy_proxies s;
          unhealthy_proxies := unhealthy_proxies s ∖ {[proxy]};
          proxy_health_checks := proxy_health_checks s;
          check_proxy_health := check_proxy_health s;
          _use_fake_ua := _use_fake_ua s;
          user_agents := user_agents s |})
    else (Raise KeyError, s).

(** [self.proxy_health_checks[proxy] = at_] *)
Definition set_health_check (proxy : string) (at_ : Z) : M t unit :=
  fun s => (Ok tt,
    {| proxies := proxies s;
       healthy_proxies := healthy_proxies s;
       unhealthy_proxies := unhealthy_proxies s;
       proxy_health_checks := <[proxy := at_]> (proxy_health_checks s);
       check_proxy_health := check_proxy_health s;
       _use_fake_ua := _use_fake_ua s;
       user_agents := user_agents s |}).

(** [self.proxies = proxies], as scraper.py assigns it *)
Definition set_proxies (ps : list string) : M t unit :=
  fun s => (Ok tt,
    {| proxies := ps;
       healthy_proxies := healthy_proxies s;
       unhealthy_proxies := unhealthy_proxies s;
       proxy_health_checks := proxy_health_checks s;
       check_proxy_health := check_proxy_health s;
       _use_fake_ua := _use_fake_ua s;
       user_agents := user_agents s |}).

(** *** The methods

    [_check_proxy_health(proxy)] sends a request through the proxy and
    catches every exception: its outcome is a boolean given by the
    network. In a loop, [probe i proxy] is the outcome of the probe of
    iteration [i], and [clock i] is what [datetime.now()] returns
    there. *)

Fixpoint _check_all_proxies_from (i : nat) (ps : list string)
    (probe : nat -> string -> bool) (clock : nat -> Z) : M t unit :=
  match ps with
  | [] => ret tt
  | proxy :: rest =>
      (if probe i proxy then
         add_healthy proxy ;;; set_health_check proxy (clock i)
       else add_unhealthy proxy) ;;;
      _check_all_proxies_from (S i) rest probe clock
  end.

(** [_check_all_proxies(self)] *)
Definition _check_all_proxies (probe : nat -> string -> bool)
    (clock : nat -> Z) : M t unit :=
  self <- get ;;
  _check_all_proxies_from 0 (proxies self) probe clock.

(** [__init__(self, proxies, user_agents, check_proxy_health)];
    [fake_ua_ok] tells whether [UserAgent()] could be built. *)
Definition __init__ (proxies_arg : option (list string))
    (user_agents_arg : option (list string)) (check : bool)
    (fake_ua_ok : bool) (probe : nat -> string -> bool) (clock : nat -> Z)
    : result unit * t :=
  let self :=
    {| proxies := or_list proxies_arg [];
       healthy_proxies := ∅;
       unhealthy_proxies := ∅;
       proxy_health_checks := ∅;
       check_proxy_health := check;
       _use_fake_ua := fake_ua_ok;
       user_agents := or_list user_agents_arg fallback_user_agents |} in
  if truthy proxies_arg && check
  then _check_all_proxies probe clock self
  else (Ok tt, self).

(** [get_random_user_agent(self)]; [fake_ua] is what [self.ua.random]
    gives. *)
Definition get_random_user_agent (fake_ua : string) (draw : nat)
    : M t string :=
  self <- get ;;
  if _use_fake_ua self then ret fake_ua
  else lift (random_choice draw (user_agents self)).

(** [not last_check or current_time - last_check > timedelta(minutes=30)];
    a [datetime] is never falsy. *)
Definition due (current_time : Z) (last_check : option Z) : bool :=
  match last_check with
  | None => true
  | Some last => current_time - last >? recheck_interval
  end.

(** The body of the recheck loop of [get_random_proxy]. *)
Definition recheck (proxy : string) (outcome : bool) (current_time : Z)
    : M t unit :=
  self <- get ;;
  let last_check := proxy_health_checks self !! proxy in
  if due current_time last_check
  then
    (if outcome then remove_unhealthy proxy ;;; add_healthy proxy
     else ret tt) ;;;
    set_health_check proxy current_time
  else ret tt.

Fixpoint recheck_from (i : nat) (ps : list string)
    (probe : nat -> string -> bool) (current_time : Z) : M t unit :=
  match ps with
  | [] => ret tt
  | proxy :: rest =>
      recheck proxy (probe i proxy) current_time ;;;
      recheck_from (S i) rest probe current_time
  end.

(** The dictionary ["http": proxy, "https": proxy]. *)
Definition proxy_dict (proxy : string) : list (string * string) :=
  [("http", proxy); ("https", proxy)].

(** [get_random_proxy(self)] *)
Definition get_random_proxy (probe : nat -> string -> bool)
    (current_time : Z) (draw : nat) : M t (option (list (string * string))) :=
  self <- get ;;
  match proxies self with
  | [] => ret None
  | _ :: _ =>
      recheck_from 0 (elements (unhealthy_proxies self)) probe current_time ;;;
      self <- get ;;
      if negb (bool_decide (healthy_proxies self = ∅)) then
        proxy <- lift (random_choice draw (elements (healthy_proxies self))) ;;
        ret (Some (proxy_dict proxy))
      else
        match proxies self with
        | _ :: _ =>
            proxy <- lift (random_choice draw (proxies self)) ;;
            ret (Some (proxy_dict proxy))
        | [] => ret None
        end
  end.

(** The fixed headers of [get_request_metadata], after ["User-Agent"]. *)
Definition fixed_headers : list (string * string) :=
  [ ("Accept", "text/html,application/xhtml+xml,application/xml;q=0.9,image/avif,image/webp,*/*;q=0.8");
    ("Accept-Language", "en-US,en;q=0.5");
    ("Accept-Encoding", "gzip, deflate, br");
    ("DNT", "1");
    ("Connection", "keep-alive");
    ("Upgrade-Insecure-Requests", "1");
    ("Sec-Fetch-Dest", "document");
    ("Sec-Fetch-Mode", "navigate");
    ("Sec-Fetch-Site", "none");
    ("Sec-Fetch-User", "?1");
    ("Pragma", "no-cache");
    ("Cache-Control", "no-cache") ].

(** The dictionary that [get_request_metadata] returns. *)
Record metadata : Type := mk_metadata {
  headers : list (string * string);
  egress : option (list (string * string))  (* the entry "proxies" *)
}.

(** [get_request_metadata(self)] *)
Definition get_request_metadata (fake_ua : string) (ua_draw : nat)
    (probe : nat -> string -> bool) (current_time : Z) (draw : nat)
    : M t metadata :=
  user_agent <- get_random_user_agent fake_ua ua_draw ;;
  let headers := ("User-Agent", user_agent) :: fixed_headers in
  chosen <- get_random_proxy probe current_time draw ;;
  ret {| headers := headers; egress := chosen |}.

(** scraper.py, [scrape_dispensary]: the update of the pool of the
    module's instance when a list of proxies is given. *)
Definition update_proxy_list (ps : option (list string))
    (probe : nat -> string -> bool) (clock : nat -> Z) : M t unit :=
  match ps with
  | Some (p :: l) =>
      set_proxies (p :: l) ;;;
      self <- get ;;
      if check_proxy_health self then _check_all_proxies probe clock
      else ret tt
  | Some [] | None => ret tt
  end.

(** The attributes that no method assigns after [__init__]. *)
Definition same_settings (self self' : t) : Prop :=
  proxies self' = proxies self /\
  check_proxy_health self' = check_proxy_health self /\
  _use_fake_ua self' = _use_fake_ua self /\
  user_agents self' = user_agents self.

(** Every proxy of the pool is in exactly one of the two sets. *)
Definition partitioned (self : t) : Prop :=
  healthy_proxies self ## unhealthy_proxies self /\
  (forall p, In p (proxies self) <->
             p ∈ healthy_proxies self ∪ unhealthy_proxies self).

(** A user agent can be produced: the generator is in use, or the list of
    user agents is not empty. [__init__] sees to it. *)
Definition ua_ready (self : t) : Prop :=
  _use_fake_ua self = true \/ user_agents self <> [].

End ProxyManager.

(* ===================================================================== *)
(** ** Callers: sequences of calls on one object *)
(* ===================================================================== *)

Module Calls.

(** One call on an in-process store, with the reading of the clock. *)
Inductive cache_call : Type :=
| Put (key : string) (data : pyval) (ttl : ttl_arg) (now : Z)
| Get (key : string) (default : pyval) (now : Z)
| Delete (key : string)
| Clear (pattern : string).

(** The store after one call. *)
Definition after (c : cache_call) (self : InMemoryCache.t)
    : InMemoryCache.t :=
  match c with
  | Put key data ttl now =>
      snd (InMemoryCache.cache_data key data ttl now self)
  | Get key default now =>
      snd (InMemoryCache.get_cached_data key default now self)
  | Delete key => snd (InMemoryCache.delete_cached_data key self)
  | Clear pattern => snd (InMemoryCache.clear_cache pattern self)
  end.

(** The store after the calls, made from left to right. *)
Definition after_all (cs : list cache_call) (self : InMemoryCache.t)
    : InMemoryCache.t :=
  fold_left (fun s c => after c s) cs self.

(** One [cache_data]: key, payload, ttl, reading of the clock. *)
Definition insertion : Type := (string * pyval * ttl_arg * Z)%type.


Definition put_of (i : insertion) : cache_call :=
  let '(key, data, ttl, now) := i in Put key data ttl now.




(** A store of capacity 2 that holds a and b. *)
Definition full_ab : InMemoryCache.t :=
  after_all (map put_of [ ("a", PInt 1, TtlInt 60, 0);
                          ("b", PInt 2, TtlInt 60, 1) ])
            (InMemoryCache.__init__ 2).

(** What one call of [get_request_metadata] takes from outside. *)
Record request : Type := mk_request {
  fake_ua : string;
  ua_draw : nat;
  probe : nat -> string -> bool;
  current_time : Z;
  draw : nat
}.

Definition serve1 (q : request) : M ProxyManager.t ProxyManager.metadata :=
  ProxyManager.get_request_metadata
    (fake_ua q) (ua_draw q) (probe q) (current_time q) (draw q).

(** Successive calls of [get_request_metadata]: the results, and the
    manager after the last call. *)
Fixpoint serve (qs : list request) (self : ProxyManager.t)
    : list (result ProxyManager.metadata) * ProxyManager.t :=
  match qs with
  | [] => ([], self)
  | q :: qs' =>
      let '(r, self') := serve1 q self in
      let '(rs, self'') := serve qs' self' in
      (r :: rs, self'')
  end.

(** The scenario of the specification: two proxies, the first of which
    answers the probe of [__init__]; a first call, at instant 0, rechecks
    the second one, which fails again. *)
Definition p1 : string := "http://p1:8080".
Definition p2 : string := "http://p2:8080".

Definition no_answer : nat -> string -> bool := fun _ _ => false.

Definition first_answers : nat -> string -> bool :=
  fun i _ => Nat.eqb i 0.

Definition request_at (now : Z) (draw : nat) : request :=
  {| fake_ua := "Mozilla/5.0"; ua_draw := draw; probe := no_answer;
     current_time := now; draw := draw |}.

Definition one_healthy_one_unhealthy : ProxyManager.t :=
  snd (serve [request_at 0 0]
         (snd (ProxyManager.__init__ (Some [p1; p2]) None true false
                 first_answers (fun _ => 0)))).

(** A thousand calls, one a second, with draws that vary. *)
Definition thousand_requests : list request :=
  map (fun i => request_at (Z.of_nat i * second) i) (seq 0 1000).

(** Two coroutines for the decorator; their state counts their runs. *)
Definition returns_none : unit -> M nat pyval :=
  fun _ runs => (Ok PNone, S runs).

Definition returns_seven : unit -> M nat pyval :=
  fun _ runs => (Ok (PInt 7), S runs).

(** A process whose [default_cache] is an empty in-process store. *)
Definition fresh_process : @Cache.process nat :=
  {| Cache.default_cache :=
       Some (Cache.InMemory (InMemoryCache.__init__ InMemoryCache.default_max_size));
     Cache.world := 0%nat;
     Cache.executions := 0%nat |}.

(** An in-process store that holds 7 under the key of [get_data()]. *)
Definition warm_store : Cache.instance :=
  snd (Cache.cache_data "get_data:42" (PInt 7) (TtlInt 300) 0
         (Cache.InMemory (InMemoryCache.__init__ InMemoryCache.default_max_size))).

Definition warm_process : @Cache.process nat :=
  {| Cache.default_cache := Some warm_store;
     Cache.world := 0%nat;
     Cache.executions := 0%nat |}.

(** A result that carries the given proxy as its egress path. *)
Definition routed_through (proxy : string)
    (r : result ProxyManager.metadata) : Prop :=
  exists md, r = Ok md /\
    ProxyManager.egress md = Some (ProxyManager.proxy_dict proxy).

(** A matcher for the patterns of the examples: a star at the end of the
    pattern matches any rest of the key, every other character matches
    itself. *)
Fixpoint prefix_star (pattern key : string) : bool :=
  match pattern, key with
  | String "*"%char EmptyString, _ => true
  | String a pattern', String b key' =>
      Ascii.eqb a b && prefix_star pattern' key'
  | EmptyString, EmptyString => true
  | _, _ => false
  end.

(** A server that holds one response of each of two endpoints. *)
Definition two_endpoints : RedisCache.t :=
  snd (RedisCache.cache_data "get_menu:7" (PInt 2) (TtlInt 300) 0
         (snd (RedisCache.cache_data "get_data:42" (PInt 7) (TtlInt 300) 0
                 Cache.empty_server))).

(** A coroutine that raises, and one whose response cannot be
    serialized. *)
Definition raises_value_error : unit -> M nat pyval :=
  fun _ runs => (Raise ValueError, S runs).

Definition returns_a_set : unit -> M nat pyval :=
  fun _ runs => (Ok (PSet [PInt 1]), S runs).

(** A process whose [default_cache] is a networked store with no key. *)
Definition redis_process : @Cache.process nat :=
  {| Cache.default_cache := Some (Cache.Redis Cache.empty_server);
     Cache.world := 0%nat;
     Cache.executions := 0%nat |}.

(** A call at which every probe is answered. *)
Definition recovery_request (now : Z) : request :=
  {| fake_ua := "Mozilla/5.0"; ua_draw := 0%nat; probe := fun _ _ => true;
     current_time := now; draw := 0%nat |}.

End Calls.


(* ===================================================================== *)
(** * Properties *)
(* ===================================================================== *)

(** ** OrderedDict *)

Module OrderedDictFacts.
Import OrderedDict.

Section Facts.
Context {V : Type}.
Implicit Types (d : OrderedDict.t V) (k : string) (v : V).

Lemma lookup_None_keys d k : lookup d k = None <-> ~ In k (keys d).
Proof.
  induction d as [|[k' w] d IH]; simpl; [tauto|].
  destruct (String.eqb_spec k' k); split; intros H; try discriminate.
  - exfalso. apply H. now left.
  - intros [E|HIn]; [congruence|]. now apply IH in H.
  - apply IH. intros HIn. apply H. now right.
Qed.

Lemma contains_true_keys d k : contains d k = true <-> In k (keys d).
Proof.
  unfold contains. destruct (lookup d k) eqn:E.
  - split; [intros _|reflexivity].
    destruct (in_dec string_dec k (keys d)) as [HIn|HIn]; [exact HIn|].
    apply lookup_None_keys in HIn. congruence.
  - split; [discriminate|]. intros HIn.
    apply lookup_None_keys in E. contradiction.
Qed.

Lemma contains_false_keys d k : contains d k = false <-> ~ In k (keys d).
Proof.
  rewrite <- contains_true_keys. destruct (contains d k); split; congruence.
Qed.

Lemma lookup_setitem_eq d k v : lookup (setitem d k v) k = Some v.
Proof.
  induction d as [|[k' w] d IH]; simpl.
  - now rewrite String.eqb_refl.
  - destruct (String.eqb_spec k' k) as [E|E]; simpl.
    + subst. now rewrite String.eqb_refl.
    + destruct (String.eqb_spec k' k); [contradiction|exact IH].
Qed.

Lemma lookup_setitem_ne d k k' v :
  k <> k' -> lookup (setitem d k v) k' = lookup d k'.
Proof.
  intros Hne. induction d as [|[k0 w] d IH]; simpl.
  - destruct (String.eqb_spec k k'); [contradiction|reflexivity].
  - destruct (String.eqb_spec k0 k) as [E|E]; simpl.
    + subst. destruct (String.eqb_spec k k'); [contradiction|reflexivity].
    + destruct (String.eqb_spec k0 k'); [reflexivity|exact IH].
Qed.

(** A new key goes to the end. *)
Lemma setitem_fresh d k v :
  ~ In k (keys d) -> setitem d k v = (d ++ [(k, v)])%list.
Proof.
  induction d as [|[k' w] d IH]; simpl; intros H; [reflexivity|].
  destruct (String.eqb_spec k' k) as [E|E].
  - exfalso. apply H. now left.
  - f_equal. apply IH. intros HIn. apply H. now right.
Qed.

(** A present key keeps the keys, and their order, as they are. *)
Lemma keys_setitem_present d k v :
  In k (keys d) -> keys (setitem d k v) = keys d.
Proof.
  induction d as [|[k' w] d IH]; simpl; intros H; [contradiction|].
  destruct (String.eqb_spec k' k) as [E|E]; simpl.
  - reflexivity.
  - f_equal. apply IH. destruct H as [H|H]; [contradiction|exact H].
Qed.

Lemma keys_setitem d k v :
  keys (setitem d k v) = if contains d k then keys d else (keys d ++ [k])%list.
Proof.
  destruct (contains d k) eqn:E.
  - apply keys_setitem_present. now apply contains_true_keys.
  - apply contains_false_keys in E. rewrite setitem_fresh by exact E.
    unfold keys. now rewrite map_app.
Qed.


Lemma wf_setitem d k v : wf d -> wf (setitem d k v).
Proof.
  unfold wf. intros H. rewrite keys_setitem.
  destruct (contains d k) eqn:E; [exact H|].
  apply contains_false_keys in E.
  apply NoDup_app; repeat split.
  - exact H.
  - intros x Hx Hx'. apply list_elem_of_In in Hx.
    apply list_elem_of_singleton in Hx'. now subst.
  - apply NoDup_singleton.
Qed.

Lemma wf_tail kv d : wf (kv :: d) -> wf d.
Proof. unfold wf. simpl. intros H. now apply NoDup_cons_1_2 in H. Qed.

Lemma keys_remove_notin d k k' :
  ~ In k' (keys d) -> ~ In k' (keys (remove d k)).
Proof.
  induction d as [|[k0 w] d IH]; simpl; [tauto|].
  intros H. destruct (String.eqb_spec k0 k); simpl.
  - tauto.
  - intros [E|HIn]; [tauto|]. apply IH in HIn; tauto.
Qed.

Lemma wf_remove d k : wf d -> wf (remove d k).
Proof.
  unfold wf. induction d as [|[k0 w] d IH]; simpl; intros H; [exact H|].
  apply NoDup_cons in H as [Hk0 Hd].
  destruct (String.eqb_spec k0 k); simpl; [exact Hd|].
  apply NoDup_cons. split; [|now apply IH].
  rewrite list_elem_of_In in *. now apply keys_remove_notin.
Qed.

(** After [del d[k]] the key is absent. *)
Lemma contains_remove d k : wf d -> contains (remove d k) k = false.
Proof.
  unfold wf. intros H. apply contains_false_keys.
  induction d as [|[k0 w] d IH]; simpl; [tauto|].
  apply NoDup_cons in H as [Hk0 Hd].
  destruct (String.eqb_spec k0 k) as [E|E]; simpl.
  - subst. now rewrite list_elem_of_In in Hk0.
  - intros [E'|HIn]; [contradiction|]. now apply IH.
Qed.


End Facts.

End OrderedDictFacts.

(** ** InMemoryCache *)

Module InMemoryCacheFacts.
Import OrderedDict OrderedDictFacts InMemoryCache.

Lemma with_cache_same self : with_cache self (cache self) = self.
Proof. now destruct self. Qed.

(** What [cache_data] does, case by case. *)
Lemma cache_data_eq key data ttl now self :
  cache_data key data ttl now self =
  if (Z.of_nat (length (cache self)) >=? max_size self)%Z then
    match cache self with
    | [] => (Ok false, self)
    | _ :: rest =>
        (Ok true,
         with_cache self (setitem rest key (data, expiry ttl now)))
    end
  else
    (Ok true,
     with_cache self (setitem (cache self) key (data, expiry ttl now))).
Proof.
  unfold cache_data, try_except, bind, get, lift, set_cache, ret,
    with_cache, expiry.
  destruct self as [c m]; simpl.
  destruct (Z.of_nat (length c) >=? m)%Z; [|reflexivity].
  destruct c as [|kv rest]; reflexivity.
Qed.

(** What [get_cached_data] does, case by case. *)
Lemma get_cached_data_eq key default now self :
  get_cached_data key default now self =
  match lookup (cache self) key with
  | None => (Ok default, self)
  | Some (data, expires_at) =>
      if (now >? expires_at)%Z
      then (Ok default, with_cache self (remove (cache self) key))
      else (Ok data, self)
  end.
Proof.
  unfold get_cached_data, try_except, bind, get, lift, set_cache, ret,
    with_cache, getitem, delitem, contains.
  destruct self as [c m]; simpl.
  destruct (lookup c key) as [[data expires_at]|] eqn:E; simpl;
    [|reflexivity].
  destruct (now >? expires_at)%Z; reflexivity.
Qed.

Lemma delete_cached_data_eq key self :
  delete_cached_data key self =
  (Ok true,
   if contains (cache self) key
   then with_cache self (remove (cache self) key) else self).
Proof.
  unfold delete_cached_data, try_except, bind, get, lift, set_cache, ret,
    with_cache, delitem.
  destruct self as [c m]; simpl.
  destruct (contains c key); reflexivity.
Qed.

Lemma clear_cache_eq pattern self :
  clear_cache pattern self = (Ok true, with_cache self []).
Proof. reflexivity. Qed.

(** No method of the in-process store raises. *)
Lemma cache_data_returns key data ttl now self :
  exists b, fst (cache_data key data ttl now self) = Ok b.
Proof.
  rewrite cache_data_eq.
  destruct (Z.of_nat (length (cache self)) >=? max_size self)%Z;
    [destruct (cache self)|]; simpl; eauto.
Qed.

(** [cache_data] keeps the dictionary well formed. *)
Lemma cache_data_wf key data ttl now self :
  wf (cache self) -> wf (cache (snd (cache_data key data ttl now self))).
Proof.
  intros H. rewrite cache_data_eq.
  destruct (Z.of_nat (length (cache self)) >=? max_size self)%Z.
  - destruct (cache self) as [|kv rest] eqn:E; simpl; [now rewrite E|].
    apply wf_setitem. eapply wf_tail, H.
  - simpl. now apply wf_setitem.
Qed.

Lemma get_cached_data_wf key default now self :
  wf (cache self) ->
  wf (cache (snd (get_cached_data key default now self))).
Proof.
  intros H. rewrite get_cached_data_eq.
  destruct (lookup (cache self) key) as [[data e]|]; [|exact H].
  destruct (now >? e)%Z; simpl; [now apply wf_remove|exact H].
Qed.



End InMemoryCacheFacts.

(** ** The in-process store under sequences of calls *)

Module CapacityFacts.
Import OrderedDict OrderedDictFacts InMemoryCache InMemoryCacheFacts Calls.




Lemma after_wf c self : wf (cache self) -> wf (cache (after c self)).
Proof.
  intros H. destruct c; simpl.
  - now apply cache_data_wf.
  - now apply get_cached_data_wf.
  - rewrite delete_cached_data_eq.
    destruct (contains (cache self) key); simpl;
      [now apply wf_remove|exact H].
  - apply NoDup_nil_2.
Qed.





End CapacityFacts.

(** ** The claims about the in-process store *)

Module InMemorySpec.
Import OrderedDict OrderedDictFacts InMemoryCache InMemoryCacheFacts.
Import Calls CapacityFacts.





End InMemorySpec.

(** ** RedisCache *)

Module RedisCacheFacts.
Import RedisClient RedisCache.

Lemma with_db_same r : with_db r (db r) = r.
Proof. now destruct r. Qed.

(** What [cache_data] does, case by case. *)
Lemma redis_cache_data_eq key data ttl now r :
  cache_data key data ttl now r =
  match Json.dumps data with
  | Raise e =>
      if RedisError_or_JSONDecodeError e then (Ok false, r)
      else (Raise e, r)
  | Ok text =>
      if reachable r then
        if ttl_seconds ttl <=? 0 then (Ok false, r)
        else (Ok true,
              with_db r (<[key := (text, Some (now + ttl_seconds ttl * second))]>
                           (db r)))
      else (Ok false, r)
  end.
Proof.
  unfold cache_data, setex, command, try_except, bind, get, lift, set_db,
    raise, ret, with_db.
  destruct (Json.dumps data) as [text|e]; simpl; [|reflexivity].
  destruct r as [d up]; simpl. destruct up; simpl; [|reflexivity].
  destruct (ttl_seconds ttl <=? 0); reflexivity.
Qed.

(** What [get_cached_data] does, case by case. *)
Lemma redis_get_cached_data_eq key default now r :
  get_cached_data key default now r =
  if reachable r then
    match db r !! key with
    | Some e =>
        if live now e then
          match Json.loads (fst e) with
          | Ok v => (Ok v, r)
          | Raise ex =>
              if RedisError_or_JSONDecodeError ex then (Ok default, r)
              else (Raise ex, r)
          end
        else (Ok default, with_db r (delete key (db r)))
    | None => (Ok default, r)
    end
  else (Ok default, r).
Proof.
  unfold get_cached_data, get_, command, try_except, bind, get, lift,
    set_db, raise, ret, with_db.
  destruct r as [d up]; simpl. destruct up; simpl; [|reflexivity].
  destruct (d !! key) as [e|]; simpl; [|reflexivity].
  destruct (live now e); simpl; [|reflexivity].
  destruct (Json.loads (fst e)); reflexivity.
Qed.

(** What [delete_cached_data] does, case by case. *)
Lemma redis_delete_cached_data_eq key now r :
  delete_cached_data key now r =
  if reachable r then
    match db r !! key with
    | Some e => (Ok (live now e), with_db r (delete key (db r)))
    | None => (Ok false, r)
    end
  else (Ok false, r).
Proof.
  unfold delete_cached_data, delete_, command, try_except, bind, get,
    set_db, raise, ret, with_db, bool_of_int.
  destruct r as [d up]; simpl. destruct up; simpl; [|reflexivity].
  destruct (d !! key) as [e|]; simpl; [|reflexivity].
  destruct (live now e); reflexivity.
Qed.

(** The decoder raises nothing but [JSONDecodeError]. *)
Lemma loads_raises text e : Json.loads text = Raise e -> e = JSONDecodeError.
Proof.
  unfold Json.loads.
  destruct (Json.parse_value _ _) as [[v r]|]; [|congruence].
  destruct (Json.skip_ws r); congruence.
Qed.

(** [get_cached_data] of the networked store never raises. *)
Lemma redis_get_cached_data_returns key default now r :
  exists v, fst (get_cached_data key default now r) = Ok v.
Proof.
  rewrite redis_get_cached_data_eq.
  destruct (reachable r); [|simpl; eauto].
  destruct (db r !! key) as [e|]; [|simpl; eauto].
  destruct (live now e); [|simpl; eauto].
  destruct (Json.loads (fst e)) as [v|ex] eqn:E; [simpl; eauto|].
  apply loads_raises in E. subst ex. simpl. eauto.
Qed.

End RedisCacheFacts.

(** ** The claims about storing, expiry and deletion *)

Module StoreSpec.
Import OrderedDict OrderedDictFacts.






Lemma fst_on_memory {A} (m : M InMemoryCache.t A) c :
  fst (Cache.on_memory m c) = fst (m c).
Proof. unfold Cache.on_memory. now destruct (m c). Qed.

Lemma snd_on_memory {A} (m : M InMemoryCache.t A) c :
  snd (Cache.on_memory m c) = Cache.InMemory (snd (m c)).
Proof. unfold Cache.on_memory. now destruct (m c). Qed.

Lemma fst_on_redis {A} (m : M RedisCache.t A) c :
  fst (Cache.on_redis m c) = fst (m c).
Proof. unfold Cache.on_redis. now destruct (m c). Qed.

Lemma snd_on_redis {A} (m : M RedisCache.t A) c :
  snd (Cache.on_redis m c) = Cache.Redis (snd (m c)).
Proof. unfold Cache.on_redis. now destruct (m c). Qed.




(** C3, on the code. The networked [cache_data] lets the [TypeError] of
    [json.dumps] through: its handler names [json.JSONDecodeError], which
    serialization never raises. The in-process [cache_data] reports the
    same call as a success. *)
Theorem C3_redis_cache_data_raises_on_unserializable :
  RedisCache.cache_data "k" (PSet [PInt 1]) (TtlInt 300) 0
    Cache.empty_server
  = (Raise TypeError, Cache.empty_server) /\
  fst (InMemoryCache.cache_data "k" (PSet [PInt 1]) (TtlInt 300) 0
         (InMemoryCache.__init__ 1000))
  = Ok true.
Proof. split; reflexivity. Qed.

(** C7, on the code. On a server that holds no such key, the networked
    [delete_cached_data] returns [False]; after a put, a first deletion
    returns [True] and a second one [False]. The in-process
    [delete_cached_data] returns [True] in both cases. *)
Theorem C7_redis_delete_reports_absent_key_as_failure :
  fst (RedisCache.delete_cached_data "k" 0 Cache.empty_server) = Ok false /\
  (let stored :=
     snd (RedisCache.cache_data "k" (PInt 1) (TtlInt 300) 0
            Cache.empty_server) in
   fst (RedisCache.delete_cached_data "k" 1 stored) = Ok true /\
   fst (RedisCache.delete_cached_data "k" 2
          (snd (RedisCache.delete_cached_data "k" 1 stored))) = Ok false) /\
  (forall key self,
     fst (InMemoryCache.delete_cached_data key self) = Ok true).
Proof.
  split; [reflexivity|]. split; [split; vm_compute; reflexivity|].
  intros key self. now rewrite InMemoryCacheFacts.delete_cached_data_eq.
Qed.

End StoreSpec.

(** ** ProxyManager *)

Module ProxyFacts.
Import ProxyManager.

Lemma same_settings_refl self : same_settings self self.
Proof. now repeat split. Qed.

Lemma same_settings_trans s1 s2 s3 :
  same_settings s1 s2 -> same_settings s2 s3 -> same_settings s1 s3.
Proof.
  intros (A1 & A2 & A3 & A4) (B1 & B2 & B3 & B4).
  repeat split; congruence.
Qed.

(** What one iteration of the recheck loop does, case by case. *)
Lemma recheck_eq proxy outcome now self :
  recheck proxy outcome now self =
  if due now (proxy_health_checks self !! proxy) then
    if outcome then
      if decide (proxy ∈ unhealthy_proxies self) then
        (Ok tt,
         {| proxies := proxies self;
            healthy_proxies := healthy_proxies self ∪ {[proxy]};
            unhealthy_proxies := unhealthy_proxies self ∖ {[proxy]};
            proxy_health_checks := <[proxy := now]> (proxy_health_checks self);
            check_proxy_health := check_proxy_health self;
            _use_fake_ua := _use_fake_ua self;
            user_agents := user_agents self |})
      else (Raise KeyError, self)
    else
      (Ok tt,
       {| proxies := proxies self;
          healthy_proxies := healthy_proxies self;
          unhealthy_proxies := unhealthy_proxies self;
          proxy_health_checks := <[proxy := now]> (proxy_health_checks self);
          check_proxy_health := check_proxy_health self;
          _use_fake_ua := _use_fake_ua self;
          user_agents := user_agents self |})
  else (Ok tt, self).
Proof.
  unfold recheck, bind, get, ret, remove_unhealthy, add_healthy,
    set_health_check.
  destruct (due now (proxy_health_checks self !! proxy)); [|reflexivity].
  destruct outcome; [|reflexivity].
  destruct (decide (proxy ∈ unhealthy_proxies self)); reflexivity.
Qed.

(** One iteration moves proxies from the unhealthy set to the healthy set
    and nowhere else. *)
Lemma recheck_sets proxy outcome now self :
  let self' := snd (recheck proxy outcome now self) in
  same_settings self self' /\
  healthy_proxies self' ∪ unhealthy_proxies self'
  = healthy_proxies self ∪ unhealthy_proxies self /\
  (healthy_proxies self ## unhealthy_proxies self ->
   healthy_proxies self' ## unhealthy_proxies self') /\
  healthy_proxies self ⊆ healthy_proxies self' /\
  unhealthy_proxies self' ⊆ unhealthy_proxies self /\
  (outcome = false ->
   healthy_proxies self' = healthy_proxies self /\
   unhealthy_proxies self' = unhealthy_proxies self) /\
  (forall q, q <> proxy -> q ∈ unhealthy_proxies self ->
             q ∈ unhealthy_proxies self').
Proof.
  intros self'. subst self'. rewrite recheck_eq.
  destruct (due now (proxy_health_checks self !! proxy)); simpl;
    [|repeat split; auto; set_solver].
  destruct outcome; simpl; [|repeat split; auto; set_solver].
  destruct (decide (proxy ∈ unhealthy_proxies self)); simpl;
    [|repeat split; auto; set_solver].
  repeat split; try reflexivity; try discriminate; try set_solver.
  apply set_eq. intros x. rewrite !elem_of_union, elem_of_difference,
    elem_of_singleton.
  destruct (decide (x = proxy)); subst; tauto.
Qed.

Lemma recheck_returns proxy outcome now self :
  proxy ∈ unhealthy_proxies self ->
  fst (recheck proxy outcome now self) = Ok tt.
Proof.
  intros H. rewrite recheck_eq.
  destruct (due now (proxy_health_checks self !! proxy)); [|reflexivity].
  destruct outcome; [|reflexivity].
  destruct (decide (proxy ∈ unhealthy_proxies self)); [reflexivity|tauto].
Qed.

Lemma recheck_not_due proxy outcome now self :
  due now (proxy_health_checks self !! proxy) = false ->
  recheck proxy outcome now self = (Ok tt, self).
Proof. intros H. now rewrite recheck_eq, H. Qed.

(** The loop, unfolded by one iteration. *)
Lemma recheck_from_cons i proxy rest probe now self :
  recheck_from i (proxy :: rest) probe now self =
  match recheck proxy (probe i proxy) now self with
  | (Ok _, self') => recheck_from (S i) rest probe now self'
  | (Raise e, self') => (Raise e, self')
  end.
Proof. reflexivity. Qed.

(** The whole recheck loop moves proxies from the unhealthy set to the
    healthy set and nowhere else. *)
Lemma recheck_from_sets ps : forall i probe now self,
  let self' := snd (recheck_from i ps probe now self) in
  same_settings self self' /\
  healthy_proxies self' ∪ unhealthy_proxies self'
  = healthy_proxies self ∪ unhealthy_proxies self /\
  (healthy_proxies self ## unhealthy_proxies self ->
   healthy_proxies self' ## unhealthy_proxies self') /\
  healthy_proxies self ⊆ healthy_proxies self' /\
  unhealthy_proxies self' ⊆ unhealthy_proxies self /\
  ((forall j p, probe j p = false) ->
   healthy_proxies self' = healthy_proxies self /\
   unhealthy_proxies self' = unhealthy_proxies self).
Proof.
  induction ps as [|proxy rest IH]; intros i probe now self; cbn zeta.
  - simpl. repeat split; auto; set_solver.
  - rewrite recheck_from_cons.
    pose proof (recheck_sets proxy (probe i proxy) now self) as Hstep.
    cbn zeta in Hstep.
    destruct (recheck proxy (probe i proxy) now self) as [[[]|e] s1];
      cbn [snd] in Hstep.
    + specialize (IH (S i) probe now s1). cbn zeta in IH.
      destruct Hstep as (A1 & A2 & A3 & A4 & A5 & A6 & _).
      destruct IH as (B1 & B2 & B3 & B4 & B5 & B6).
      split; [eapply same_settings_trans; eauto|].
      split; [congruence|]. split; [auto|].
      split; [set_solver|]. split; [set_solver|].
      intros Hfail. destruct (A6 (Hfail i proxy)) as [E1 E2].
      destruct (B6 Hfail) as [E3 E4]. split; congruence.
    + cbn [snd].
      destruct Hstep as (A1 & A2 & A3 & A4 & A5 & A6 & _).
      repeat split; auto; try apply A1.
      * now apply A6.
      * now apply A6.
Qed.

(** A proxy enters the healthy set only on a probe that succeeds. *)
Lemma recheck_from_promoted ps : forall i probe now self p,
  p ∈ healthy_proxies (snd (recheck_from i ps probe now self)) ->
  p ∈ healthy_proxies self \/ exists j, probe j p = true.
Proof.
  induction ps as [|proxy rest IH]; intros i probe now self p;
    [now left|].
  rewrite recheck_from_cons.
  pose proof (recheck_eq proxy (probe i proxy) now self) as Hstep.
  destruct (recheck proxy (probe i proxy) now self) as [[[]|e] s1].
  - intros Hp. apply IH in Hp as [Hp|Hp]; [|now right].
    destruct (due now (proxy_health_checks self !! proxy));
      [|inversion Hstep; subst; now left].
    destruct (probe i proxy) eqn:Hprobe;
      [|inversion Hstep; subst; now left].
    destruct (decide (proxy ∈ unhealthy_proxies self));
      [|discriminate].
    inversion Hstep; subst s1. cbn [healthy_proxies] in Hp.
    apply elem_of_union in Hp as [Hp|Hp]; [now left|].
    apply elem_of_singleton in Hp. subst p. right. now exists i.
  - cbn [snd]. intros Hp.
    destruct (due now (proxy_health_checks self !! proxy));
      [|discriminate].
    destruct (probe i proxy); [|discriminate].
    destruct (decide (proxy ∈ unhealthy_proxies self)); [discriminate|].
    inversion Hstep; subst. now left.
Qed.

(** The loop over a snapshot of the unhealthy set raises nothing. *)
Lemma recheck_from_returns ps : forall i probe now self,
  NoDup ps ->
  (forall p, In p ps -> p ∈ unhealthy_proxies self) ->
  fst (recheck_from i ps probe now self) = Ok tt.
Proof.
  induction ps as [|proxy rest IH]; intros i probe now self Hnd Hin;
    [reflexivity|].
  rewrite recheck_from_cons.
  pose proof (recheck_returns proxy (probe i proxy) now self
                (Hin proxy (or_introl eq_refl))) as Hok.
  pose proof (recheck_sets proxy (probe i proxy) now self) as Hstep.
  cbn zeta in Hstep.
  destruct (recheck proxy (probe i proxy) now self) as [[[]|e] s1];
    [|discriminate].
  cbn [snd] in Hstep. destruct Hstep as (_ & _ & _ & _ & _ & _ & Hkeep).
  apply NoDup_cons in Hnd as [Hnotin Hnd].
  apply IH; [exact Hnd|].
  intros p Hp. apply Hkeep.
  - intros ->. apply Hnotin. now apply list_elem_of_In.
  - apply Hin. now right.
Qed.

(** Nothing is due: the loop changes nothing. *)
Lemma recheck_from_not_due ps : forall i probe now self,
  (forall p, In p ps -> due now (proxy_health_checks self !! p) = false) ->
  recheck_from i ps probe now self = (Ok tt, self).
Proof.
  induction ps as [|proxy rest IH]; intros i probe now self Hdue;
    [reflexivity|].
  rewrite recheck_from_cons, recheck_not_due
    by (apply Hdue; now left).
  apply IH. intros p Hp. apply Hdue. now right.
Qed.

Lemma random_choice_In {A} (draw : nat) (seq : list A) :
  seq <> [] -> exists x, random_choice draw seq = Ok x /\ In x seq.
Proof.
  destruct seq as [|x l]; [congruence|]. intros _.
  eexists. split; [reflexivity|].
  apply nth_In. apply Nat.mod_upper_bound. discriminate.
Qed.

(** The choice is the element at the drawn index. *)
Lemma random_choice_nth {A} (draw : nat) (seq : list A) (d : A) :
  seq <> [] ->
  random_choice draw seq = Ok (nth (draw mod length seq) seq d).
Proof.
  destruct seq as [|x l]; [congruence|]. intros _.
  unfold random_choice. f_equal. apply nth_indep.
  apply Nat.mod_upper_bound. discriminate.
Qed.

(** [get_random_proxy] raises nothing; what it returns. *)
Lemma get_random_proxy_spec probe now draw self :
  exists chosen self',
    get_random_proxy probe now draw self = (Ok chosen, self') /\
    (proxies self = [] -> chosen = None /\ self' = self) /\
    (proxies self <> [] ->
     self' = snd (recheck_from 0 (elements (unhealthy_proxies self))
                    probe now self) /\
     (healthy_proxies self' <> ∅ ->
      exists p, p ∈ healthy_proxies self' /\ chosen = Some (proxy_dict p)) /\
     (healthy_proxies self' = ∅ ->
      chosen = Some (proxy_dict
                 (nth (draw mod length (proxies self)) (proxies self) "")))).
Proof.
  unfold get_random_proxy, bind, get.
  destruct (proxies self) as [|p0 ps] eqn:Hps.
  { exists None, self. repeat split; congruence. }
  pose proof (recheck_from_returns (elements (unhealthy_proxies self)) 0
                probe now self (NoDup_elements _)) as Hok.
  pose proof (recheck_from_sets (elements (unhealthy_proxies self)) 0
                probe now self) as Hsets.
  cbn zeta in Hsets.
  destruct (recheck_from 0 (elements (unhealthy_proxies self)) probe now self)
    as [[[]|e] s1].
  2:{ exfalso. enough (@Raise unit e = Ok tt) by discriminate.
      apply Hok. intros p Hp. apply elem_of_elements.
      now apply list_elem_of_In. }
  cbn [snd] in Hsets. destruct Hsets as ((Hpool & _) & _).
  rewrite Hpool, Hps. clear Hok.
  case_bool_decide as Hempty; cbn [negb].
  - (* no proxy is healthy: any proxy of the pool *)
    unfold lift, ret.
    rewrite (random_choice_nth draw (p0 :: ps) "") by discriminate.
    eexists _, s1. split; [reflexivity|].
    split; [discriminate|]. intros _. split; [reflexivity|].
    split; [intros Hne; contradiction|intros _; reflexivity].
  - (* a healthy proxy *)
    assert (Hne : elements (healthy_proxies s1) <> []).
    { intros E. apply Hempty. now apply elements_empty_inv in E;
        apply leibniz_equiv in E. }
    destruct (random_choice_In draw _ Hne) as (p & Hp & HIn).
    unfold lift, ret. rewrite Hp.
    eexists _, s1. split; [reflexivity|].
    split; [discriminate|]. intros _. split; [reflexivity|].
    split; [|intros E; contradiction].
    intros _. exists p. split; [|reflexivity].
    apply elem_of_elements. now apply list_elem_of_In.
Qed.

(** [get_request_metadata] raises nothing on a manager that can produce a
    user agent; what it returns. *)
Lemma get_request_metadata_spec fake_ua ua_draw probe now draw self :
  ua_ready self ->
  exists user_agent chosen self',
    get_request_metadata fake_ua ua_draw probe now draw self
    = (Ok {| headers := ("User-Agent", user_agent) :: fixed_headers;
             egress := chosen |}, self') /\
    get_random_proxy probe now draw self = (Ok chosen, self').
Proof.
  intros Hua.
  destruct (get_random_proxy_spec probe now draw self)
    as (chosen & self' & Hget & _).
  unfold get_request_metadata, get_random_user_agent, bind, get, ret, lift.
  destruct (_use_fake_ua self) eqn:Hfake.
  - rewrite Hget. now exists fake_ua, chosen, self'.
  - destruct Hua as [Hua|Hua]; [congruence|].
    destruct (random_choice_In ua_draw _ Hua) as (ua & Hchoice & _).
    rewrite Hchoice, Hget. now exists ua, chosen, self'.
Qed.

(** What a call of [get_random_proxy] does to the two sets. *)
Lemma get_random_proxy_sets probe now draw self :
  let self' := snd (get_random_proxy probe now draw self) in
  same_settings self self' /\
  healthy_proxies self' ∪ unhealthy_proxies self'
  = healthy_proxies self ∪ unhealthy_proxies self /\
  (healthy_proxies self ## unhealthy_proxies self ->
   healthy_proxies self' ## unhealthy_proxies self') /\
  healthy_proxies self ⊆ healthy_proxies self' /\
  unhealthy_proxies self' ⊆ unhealthy_proxies self /\
  ((forall j p, probe j p = false) ->
   healthy_proxies self' = healthy_proxies self /\
   unhealthy_proxies self' = unhealthy_proxies self) /\
  ((forall u, u ∈ unhealthy_proxies self ->
              due now (proxy_health_checks self !! u) = false) ->
   self' = self).
Proof.
  destruct (get_random_proxy_spec probe now draw self)
    as (chosen & self' & Hget & Hempty & Hpool).
  rewrite Hget. cbn [snd].
  destruct (proxies self) as [|p0 ps] eqn:Hps.
  - destruct Hempty as [_ ->]; [reflexivity|].
    repeat split; auto; set_solver.
  - destruct Hpool as (-> & _); [discriminate|].
    pose proof (recheck_from_sets (elements (unhealthy_proxies self)) 0
                  probe now self) as H.
    cbn zeta in H. destruct H as (A1 & A2 & A3 & A4 & A5 & A6).
    repeat split; try apply A1; auto; try (now apply A6).
    intros Hdue. rewrite recheck_from_not_due; [reflexivity|].
    intros p Hp. apply Hdue, elem_of_elements. now apply list_elem_of_In.
Qed.

Lemma serve1_state q self :
  ua_ready self ->
  snd (Calls.serve1 q self)
  = snd (get_random_proxy (Calls.probe q) (Calls.current_time q)
           (Calls.draw q) self).
Proof.
  intros Hua. unfold Calls.serve1.
  destruct (get_request_metadata_spec (Calls.fake_ua q) (Calls.ua_draw q)
              (Calls.probe q) (Calls.current_time q) (Calls.draw q) self Hua)
    as (ua & chosen & self' & -> & ->).
  reflexivity.
Qed.

Lemma ua_ready_settings self self' :
  same_settings self self' -> ua_ready self -> ua_ready self'.
Proof. intros (_ & _ & E1 & E2). unfold ua_ready. now rewrite E1, E2. Qed.

Lemma serve_cons q qs self :
  Calls.serve (q :: qs) self =
  (fst (Calls.serve1 q self) :: fst (Calls.serve qs (snd (Calls.serve1 q self))),
   snd (Calls.serve qs (snd (Calls.serve1 q self)))).
Proof.
  cbn [Calls.serve]. destruct (Calls.serve1 q self) as [r s1].
  cbn [fst snd]. now destruct (Calls.serve qs s1).
Qed.

(** Successive calls keep the settings, the union of the two sets and
    their disjointness. *)
Lemma serve_sets qs : forall self,
  ua_ready self ->
  let self' := snd (Calls.serve qs self) in
  same_settings self self' /\
  healthy_proxies self' ∪ unhealthy_proxies self'
  = healthy_proxies self ∪ unhealthy_proxies self /\
  (healthy_proxies self ## unhealthy_proxies self ->
   healthy_proxies self' ## unhealthy_proxies self') /\
  unhealthy_proxies self' ⊆ unhealthy_proxies self.
Proof.
  induction qs as [|q qs IH]; intros self Hua; cbn zeta.
  - simpl. repeat split; auto; set_solver.
  - rewrite serve_cons. cbn [snd]. rewrite serve1_state by exact Hua.
    pose proof (get_random_proxy_sets (Calls.probe q) (Calls.current_time q)
                  (Calls.draw q) self) as H.
    cbn zeta in H. destruct H as (A1 & A2 & A3 & _ & A5 & _).
    set (s1 := snd (get_random_proxy _ _ _ self)) in *.
    destruct (IH s1 (ua_ready_settings _ _ A1 Hua)) as (B1 & B2 & B3 & B4).
    split; [eapply same_settings_trans; eauto|].
    split; [congruence|]. split; [auto|set_solver].
Qed.

(** The loop of [_check_all_proxies]: it raises nothing, and sorts every
    proxy by the outcome of its probe. *)
Lemma check_all_proxies_from_spec ps : forall i probe clock self,
  exists self',
    _check_all_proxies_from i ps probe clock self = (Ok tt, self') /\
    same_settings self self' /\
    (forall p, p ∈ healthy_proxies self' <->
       p ∈ healthy_proxies self \/
       exists j, ps !! j = Some p /\ probe (i + j)%nat p = true) /\
    (forall p, p ∈ unhealthy_proxies self' <->
       p ∈ unhealthy_proxies self \/
       exists j, ps !! j = Some p /\ probe (i + j)%nat p = false).
Proof.
  induction ps as [|proxy rest IH]; intros i probe clock self.
  - exists self. split; [reflexivity|]. split; [apply same_settings_refl|].
    split; intros p; (split; [tauto|]);
      intros [H|(j & Hj & _)]; [exact H|discriminate|exact H|discriminate].
  - cbn [_check_all_proxies_from]. unfold bind at 1.
    destruct (probe i proxy) eqn:Hprobe.
    + unfold bind at 1, add_healthy, set_health_check. cbn [fst snd].
      match goal with
      | |- context [_check_all_proxies_from (S i) rest probe clock ?s] =>
          destruct (IH (S i) probe clock s) as (self' & -> & Hs & Hh & Hu)
      end.
      exists self'. split; [reflexivity|]. split; [exact Hs|].
      cbn [healthy_proxies unhealthy_proxies] in Hh, Hu.
      split; intros p.
      * rewrite Hh, elem_of_union, elem_of_singleton. split.
        -- intros [[H| ->]|(j & Hj & Hp)]; [now left| |].
           ++ right. exists 0%nat. now rewrite Nat.add_0_r.
           ++ right. exists (S j). split; [exact Hj|].
              now rewrite <- plus_n_Sm.
        -- intros [H|([|j] & Hj & Hp)]; [now left; left| |].
           ++ left; right. cbn in Hj. congruence.
           ++ right. exists j. split; [exact Hj|].
              now rewrite <- plus_n_Sm in Hp.
      * rewrite Hu. split.
        -- intros [H|(j & Hj & Hp)]; [now left|].
           right. exists (S j). split; [exact Hj|]. now rewrite <- plus_n_Sm.
        -- intros [H|([|j] & Hj & Hp)]; [now left| |].
           ++ cbn in Hj. rewrite Nat.add_0_r in Hp. congruence.
           ++ right. exists j. split; [exact Hj|].
              now rewrite <- plus_n_Sm in Hp.
    + unfold add_unhealthy. cbn [fst snd].
      match goal with
      | |- context [_check_all_proxies_from (S i) rest probe clock ?s] =>
          destruct (IH (S i) probe clock s) as (self' & -> & Hs & Hh & Hu)
      end.
      exists self'. split; [reflexivity|]. split; [exact Hs|].
      cbn [healthy_proxies unhealthy_proxies] in Hh, Hu.
      split; intros p.
      * rewrite Hh. split.
        -- intros [H|(j & Hj & Hp)]; [now left|].
           right. exists (S j). split; [exact Hj|]. now rewrite <- plus_n_Sm.
        -- intros [H|([|j] & Hj & Hp)]; [now left| |].
           ++ cbn in Hj. rewrite Nat.add_0_r in Hp. congruence.
           ++ right. exists j. split; [exact Hj|].
              now rewrite <- plus_n_Sm in Hp.
      * rewrite Hu, elem_of_union, elem_of_singleton. split.
        -- intros [[H| ->]|(j & Hj & Hp)]; [now left| |].
           ++ right. exists 0%nat. now rewrite Nat.add_0_r.
           ++ right. exists (S j). split; [exact Hj|].
              now rewrite <- plus_n_Sm.
        -- intros [H|([|j] & Hj & Hp)]; [now left; left| |].
           ++ left; right. cbn in Hj. congruence.
           ++ right. exists j. split; [exact Hj|].
              now rewrite <- plus_n_Sm in Hp.
Qed.

End ProxyFacts.

(** ** The claims about the rotation manager *)

Module ProxySpec.
Import ProxyManager ProxyFacts Calls.

(** [__init__] raises nothing; the manager that it builds. *)
Lemma init_spec ps_arg uas check fake_ok probe0 clock :
  exists self,
    __init__ ps_arg uas check fake_ok probe0 clock = (Ok tt, self) /\
    proxies self = or_list ps_arg [] /\
    ua_ready self /\
    (check = true ->
     (forall p, p ∈ healthy_proxies self <->
        exists j, proxies self !! j = Some p /\ probe0 j p = true) /\
     (forall p, p ∈ unhealthy_proxies self <->
        exists j, proxies self !! j = Some p /\ probe0 j p = false)) /\
    (check = false ->
     healthy_proxies self = ∅ /\ unhealthy_proxies self = ∅).
Proof.
  assert (Hua : or_list uas fallback_user_agents <> []).
  { destruct uas as [[|a l]|]; discriminate. }
  unfold __init__.
  set (self0 := {| proxies := or_list ps_arg []; healthy_proxies := ∅;
                   unhealthy_proxies := ∅; proxy_health_checks := ∅;
                   check_proxy_health := check; _use_fake_ua := fake_ok;
                   user_agents := or_list uas fallback_user_agents |}).
  assert (Hnone : check = true -> or_list ps_arg [] = [] ->
    (forall p, p ∈ healthy_proxies self0 <->
       exists j, proxies self0 !! j = Some p /\ probe0 j p = true) /\
    (forall p, p ∈ unhealthy_proxies self0 <->
       exists j, proxies self0 !! j = Some p /\ probe0 j p = false)).
  { intros _ E. simpl. rewrite E.
    split; intros p; (split; [set_solver|]); intros (j & Hj & _);
      discriminate. }
  destruct (truthy ps_arg && check) eqn:Hrun.
  - apply andb_true_iff in Hrun as [Hps ->].
    unfold _check_all_proxies, bind, get.
    destruct (check_all_proxies_from_spec (proxies self0) 0 probe0 clock
                self0) as (self & -> & Hs & Hh & Hu).
    destruct Hs as (E1 & E2 & E3 & E4).
    exists self. split; [reflexivity|]. split; [exact E1|].
    split; [right; rewrite E4; exact Hua|].
    split; [|discriminate]. intros _. rewrite E1.
    split; intros p; [rewrite Hh|rewrite Hu]; simpl; set_solver.
  - exists self0. split; [reflexivity|]. split; [reflexivity|].
    split; [right; exact Hua|].
    split; [|intros _; split; reflexivity].
    intros ->. rewrite andb_true_r in Hrun. apply Hnone; [reflexivity|].
    destruct ps_arg as [[|a l]|]; [reflexivity|discriminate|reflexivity].
Qed.

(** A checked pool without duplicates is partitioned by [__init__]. *)
Lemma init_partitioned ps uas fake_ok probe0 clock :
  NoDup ps ->
  partitioned (snd (__init__ (Some ps) uas true fake_ok probe0 clock)).
Proof.
  intros Hnd.
  destruct (init_spec (Some ps) uas true fake_ok probe0 clock)
    as (self & -> & Hps & _ & Hsets & _).
  destruct (Hsets eq_refl) as [Hh Hu]. cbn [snd].
  assert (Hpool : proxies self = ps).
  { rewrite Hps. now destruct ps. }
  unfold partitioned. rewrite Hpool.
  setoid_rewrite Hpool in Hh. setoid_rewrite Hpool in Hu. split.
  - intros p Hp1 Hp2. apply Hh in Hp1 as (j & Hj & Hp1).
    apply Hu in Hp2 as (j' & Hj' & Hp2).
    assert (j = j') by (eapply NoDup_lookup; eauto). subst j'. congruence.
  - intros p. rewrite elem_of_union, Hh, Hu, <- list_elem_of_In,
      list_elem_of_lookup.
    split.
    + intros (j & Hj).
      destruct (probe0 j p) eqn:E; [left|right]; exists j; now split.
    + intros [(j & Hj & _)|(j & Hj & _)]; eauto.
Qed.

Lemma not_due_within now last :
  now - last <= recheck_interval -> due now (Some last) = false.
Proof. intros H. unfold due. rewrite Z.gtb_ltb. apply Z.ltb_ge. lia. Qed.

(** A healthy proxy in the pool and nothing to recheck: the call changes
    nothing and picks a healthy proxy. *)
Lemma get_random_proxy_settled probe now draw self :
  (exists h, In h (proxies self) /\ h ∈ healthy_proxies self) ->
  (forall u, u ∈ unhealthy_proxies self ->
     exists last, proxy_health_checks self !! u = Some last /\
                  now - last <= recheck_interval) ->
  exists p, p ∈ healthy_proxies self /\
    get_random_proxy probe now draw self = (Ok (Some (proxy_dict p)), self).
Proof.
  intros (h & Hpool & Hh) Hrecent.
  destruct (get_random_proxy_spec probe now draw self)
    as (chosen & self' & Hget & _ & Hchoice).
  pose proof (get_random_proxy_sets probe now draw self) as Hsets.
  cbn zeta in Hsets. rewrite Hget in Hsets. cbn [snd] in Hsets.
  destruct Hsets as (_ & _ & _ & _ & _ & _ & Hsame).
  assert (self' = self) as ->.
  { apply Hsame. intros u Hu. destruct (Hrecent u Hu) as (last & -> & Hle).
    now apply not_due_within. }
  destruct Hchoice as (_ & Hhealthy & _).
  { intros E. rewrite E in Hpool. contradiction. }
  destruct Hhealthy as (p & Hp & ->); [set_solver|].
  now exists p.
Qed.

(** C5. Whenever a proxy of the pool is healthy and no unhealthy proxy is
    due for a recheck (each was last checked within the 30 minutes of the
    recheck interval), [get_random_proxy], and with it
    [get_request_metadata], returns a proxy of the healthy set and leaves
    the manager as it is. In particular, on a pool with exactly one healthy
    and one recently checked unhealthy proxy, successive calls, a thousand
    or any other number, all return the healthy proxy. *)
Theorem C5_healthy_proxies_are_preferred :
  (forall self probe now draw fake_ua ua_draw,
     (exists h, In h (proxies self) /\ h ∈ healthy_proxies self) ->
     (forall u, u ∈ unhealthy_proxies self ->
        exists last, proxy_health_checks self !! u = Some last /\
                     now - last <= recheck_interval) ->
     exists p, p ∈ healthy_proxies self /\
       get_random_proxy probe now draw self
       = (Ok (Some (proxy_dict p)), self) /\
       (ua_ready self ->
        exists md,
          get_request_metadata fake_ua ua_draw probe now draw self
          = (Ok md, self) /\
          egress md = Some (proxy_dict p))) /\
  (forall self h u last (qs : list request),
     ua_ready self ->
     In h (proxies self) ->
     healthy_proxies self = {[h]} ->
     unhealthy_proxies self = {[u]} ->
     proxy_health_checks self !! u = Some last ->
     Forall (fun q => current_time q - last <= recheck_interval) qs ->
     Forall (routed_through h) (fst (serve qs self)) /\
     length (fst (serve qs self)) = length qs /\
     snd (serve qs self) = self).
Proof.
  assert (Hone : forall self probe now draw fake_ua ua_draw,
     (exists h, In h (proxies self) /\ h ∈ healthy_proxies self) ->
     (forall u, u ∈ unhealthy_proxies self ->
        exists last, proxy_health_checks self !! u = Some last /\
                     now - last <= recheck_interval) ->
     exists p, p ∈ healthy_proxies self /\
       get_random_proxy probe now draw self
       = (Ok (Some (proxy_dict p)), self) /\
       (ua_ready self ->
        exists md,
          get_request_metadata fake_ua ua_draw probe now draw self
          = (Ok md, self) /\
          egress md = Some (proxy_dict p))).
  { intros self probe now draw fake_ua ua_draw Hh Hrecent.
    destruct (get_random_proxy_settled probe now draw self Hh Hrecent)
      as (p & Hp & Hget).
    exists p. split; [exact Hp|]. split; [exact Hget|].
    intros Hua.
    destruct (get_request_metadata_spec fake_ua ua_draw probe now draw self
                Hua) as (ua & chosen & self' & Hmd & Hget').
    rewrite Hget in Hget'. inversion Hget'; subst chosen self'.
    eexists. split; [exact Hmd|reflexivity]. }
  split; [exact Hone|].
  intros self h u last qs Hua Hpool Hh Hu Hlast Hqs.
  induction Hqs as [|q qs Hq Hqs IH].
  - split; [constructor|split; reflexivity].
  - destruct (Hone self (probe q) (current_time q) (draw q) (fake_ua q)
                (ua_draw q)) as (p & Hp & _ & Hmd).
    { exists h. split; [exact Hpool|]. rewrite Hh. set_solver. }
    { intros u' Hu'. rewrite Hu in Hu'. apply elem_of_singleton in Hu'.
      subst u'. now exists last. }
    destruct (Hmd Hua) as (md & Hserve & Hegress).
    rewrite Hh in Hp. apply elem_of_singleton in Hp. subst p.
    rewrite serve_cons. unfold serve1. rewrite Hserve.
    cbn [fst snd]. destruct IH as (IH1 & IH2 & IH3).
    split; [|split].
    + constructor; [now exists md|exact IH1].
    + cbn [length]. f_equal. exact IH2.
    + exact IH3.
Qed.

(** The pool of the scenario, and a thousand calls within half an hour. *)
Lemma C5_witness :
  (exists p, p ∈ healthy_proxies one_healthy_one_unhealthy /\
     get_random_proxy no_answer 5 3%nat one_healthy_one_unhealthy
     = (Ok (Some (proxy_dict p)), one_healthy_one_unhealthy)) /\
  Forall (routed_through p1)
    (fst (serve thousand_requests one_healthy_one_unhealthy)) /\
  length (fst (serve thousand_requests one_healthy_one_unhealthy))
  = 1000%nat.
Proof.
  destruct C5_healthy_proxies_are_preferred as [Hone Hmany].
  assert (Hua : ua_ready one_healthy_one_unhealthy)
    by (right; vm_compute; discriminate).
  assert (Hpool : In p1 (proxies one_healthy_one_unhealthy))
    by (vm_compute; left; reflexivity).
  assert (Hh : healthy_proxies one_healthy_one_unhealthy = {[p1]})
    by (vm_compute; reflexivity).
  assert (Hu : unhealthy_proxies one_healthy_one_unhealthy = {[p2]})
    by (vm_compute; reflexivity).
  assert (Hlast :
    proxy_health_checks one_healthy_one_unhealthy !! p2 = Some 0)
    by (vm_compute; reflexivity).
  split.
  - destruct (Hone one_healthy_one_unhealthy no_answer 5 3%nat "Mozilla/5.0"
                0%nat) as (p & Hp & Hget & _).
    + exists p1. split; [exact Hpool|]. rewrite Hh. now apply elem_of_singleton.
    + intros u Hu'. rewrite Hu in Hu'. apply elem_of_singleton in Hu'.
      subst u. exists 0. split; [exact Hlast|]. vm_compute. discriminate.
    + exists p. split; [exact Hp|exact Hget].
  - destruct (Hmany one_healthy_one_unhealthy p1 p2 0 thousand_requests
                Hua Hpool Hh Hu Hlast) as (Hall & Hlen & _).
    + apply Forall_forall. intros q Hq.
      apply list_elem_of_In in Hq. unfold thousand_requests in Hq.
      apply in_map_iff in Hq as (i & <- & Hi). apply in_seq in Hi.
      cbn [current_time request_at]. unfold recheck_interval, second. lia.
    + split; [exact Hall|]. rewrite Hlen. reflexivity.
Defined.

Lemma serve_all_ok qs : forall self,
  ua_ready self ->
  Forall (fun r => exists md, r = Ok md) (fst (serve qs self)).
Proof.
  induction qs as [|q qs IH]; intros self Hua; [constructor|].
  rewrite serve_cons. cbn [fst]. constructor.
  - unfold serve1.
    destruct (get_request_metadata_spec (fake_ua q) (ua_draw q) (probe q)
                (current_time q) (draw q) self Hua)
      as (ua & chosen & self' & -> & _).
    cbn [fst]. eauto.
  - apply IH. rewrite serve1_state by exact Hua.
    eapply ua_ready_settings; [|exact Hua].
    apply get_random_proxy_sets.
Qed.

(** C6. [get_request_metadata] never fails: on every manager that
    [__init__] can build, after any calls, the constructor and every call
    return; a call returns the thirteen headers, the twelve fixed ones
    after the user agent. On an empty pool the egress path is [None]. On a
    pool that is not empty and in which no proxy is healthy once the due
    rechecks are made, the egress path is the proxy of the whole pool at
    the index that the generator draws; and when no proxy was healthy and
    every probe of the call fails, no proxy is healthy after it and the
    unhealthy set is as before. *)
Theorem C6_next_never_fails
    (ps_arg uas : option (list string)) (check fake_ok : bool)
    (probe0 : nat -> string -> bool) (clock : nat -> Z)
    (qs : list request) (q : request) :
  let self := snd (serve qs (snd (__init__ ps_arg uas check fake_ok probe0 clock))) in
  fst (__init__ ps_arg uas check fake_ok probe0 clock) = Ok tt /\
  Forall (fun r => exists md, r = Ok md)
    (fst (serve qs (snd (__init__ ps_arg uas check fake_ok probe0 clock)))) /\
  exists user_agent chosen self',
    serve1 q self
    = (Ok {| headers := ("User-Agent", user_agent) :: fixed_headers;
             egress := chosen |}, self') /\
    length (("User-Agent", user_agent) :: fixed_headers) = 13%nat /\
    (proxies self = [] -> chosen = None) /\
    (proxies self <> [] -> healthy_proxies self' = ∅ ->
     chosen = Some (proxy_dict
                (nth (draw q mod length (proxies self)) (proxies self) ""))) /\
    (healthy_proxies self = ∅ -> (forall j p, probe q j p = false) ->
     healthy_proxies self' = ∅ /\
     unhealthy_proxies self' = unhealthy_proxies self).
Proof.
  intros self.
  destruct (init_spec ps_arg uas check fake_ok probe0 clock)
    as (self0 & Hinit & _ & Hua0 & _).
  subst self. rewrite Hinit. cbn [fst snd].
  split; [reflexivity|]. split; [now apply serve_all_ok|].
  set (self := snd (serve qs self0)).
  assert (Hua : ua_ready self).
  { eapply ua_ready_settings; [|exact Hua0]. now apply serve_sets. }
  unfold serve1.
  destruct (get_request_metadata_spec (fake_ua q) (ua_draw q) (probe q)
              (current_time q) (draw q) self Hua)
    as (ua & chosen & self' & Hmd & Hget).
  exists ua, chosen, self'. split; [exact Hmd|]. split; [reflexivity|].
  destruct (get_random_proxy_spec (probe q) (current_time q) (draw q) self)
    as (chosen' & self'' & Hget' & Hempty & Hpool).
  rewrite Hget in Hget'. inversion Hget'; subst chosen' self''.
  split; [intros E; now apply Hempty|].
  split; [intros Hne; now apply Hpool|].
  intros Hnone Hfail.
  pose proof (get_random_proxy_sets (probe q) (current_time q) (draw q) self)
    as Hsets.
  cbn zeta in Hsets. rewrite Hget in Hsets. cbn [snd] in Hsets.
  destruct Hsets as (_ & _ & _ & _ & _ & Hkeep & _).
  destruct (Hkeep Hfail) as [E1 E2]. split; congruence.
Qed.

(** The scenario of the specification: the pool holds one proxy and every
    probe fails; the first call returns that proxy, which stays
    unhealthy. *)
Lemma C6_witness :
  exists user_agent self',
    serve1 (request_at 0 0)
      (snd (__init__ (Some [p1]) None true false no_answer (fun _ => 0)))
    = (Ok {| headers := ("User-Agent", user_agent) :: fixed_headers;
             egress := Some (proxy_dict p1) |}, self') /\
    healthy_proxies self' = ∅ /\
    unhealthy_proxies self' = {[p1]}.
Proof.
  destruct (C6_next_never_fails (Some [p1]) None true false no_answer
              (fun _ => 0) [] (request_at 0 0))
    as (_ & _ & ua & chosen & self' & Hserve & _ & _ & Hpool & Hfail).
  cbn [serve snd] in Hserve, Hpool, Hfail.
  destruct Hfail as [Hh Hu]; [vm_compute; reflexivity|reflexivity|].
  exists ua, self'. rewrite Hserve, Hh, Hu.
  split; [|split; [reflexivity|vm_compute; reflexivity]].
  rewrite (Hpool ltac:(discriminate) Hh). reflexivity.
Defined.

Lemma partitioned_settings self self' :
  same_settings self self' ->
  healthy_proxies self' ∪ unhealthy_proxies self'
  = healthy_proxies self ∪ unhealthy_proxies self ->
  healthy_proxies self' ## unhealthy_proxies self' ->
  partitioned self -> partitioned self'.
Proof.
  intros (Hps & _) Hunion Hdisj [_ Hcover]. split; [exact Hdisj|].
  intros p. rewrite Hps, Hunion. apply Hcover.
Qed.

(** C8, as the code has it. A manager built with health checking enabled
    over a list without duplicates probes every proxy in [__init__], which
    puts it in the healthy set when the probe succeeds and in the unhealthy
    set when it fails; from then on, across calls of
    [get_request_metadata], every proxy of the pool is in exactly one of
    the two sets, and a call moves a proxy into the healthy set only when
    a probe of it succeeds. A manager built with health checking disabled
    probes nothing: both sets are empty and stay empty. *)
Theorem C8_checked_pool_is_partitioned
    (ps : list string) (uas : option (list string)) (fake_ok : bool)
    (probe0 : nat -> string -> bool) (clock : nat -> Z)
    (qs : list request) (q : request) :
  NoDup ps ->
  (let self0 := snd (__init__ (Some ps) uas true fake_ok probe0 clock) in
   forall j p, ps !! j = Some p ->
     if probe0 j p then p ∈ healthy_proxies self0
     else p ∈ unhealthy_proxies self0) /\
  (let self := snd (serve qs
                      (snd (__init__ (Some ps) uas true fake_ok probe0 clock))) in
   proxies self = ps /\ partitioned self /\
   (forall p, p ∈ unhealthy_proxies self ->
      p ∈ healthy_proxies (snd (serve1 q self)) ->
      exists j, probe q j p = true)) /\
  (let self := snd (serve qs
                      (snd (__init__ (Some ps) uas false fake_ok probe0 clock))) in
   proxies self = ps /\
   healthy_proxies self = ∅ /\ unhealthy_proxies self = ∅).
Proof.
  intros Hnd.
  assert (Hor : or_list (Some ps) [] = ps) by now destruct ps.
  split; [|split].
  - intros self0 j p Hj. subst self0.
    destruct (init_spec (Some ps) uas true fake_ok probe0 clock)
      as (self0 & -> & Hps & _ & Hsets & _).
    destruct (Hsets eq_refl) as [Hh Hu]. cbn [snd].
    rewrite Hor in Hps. setoid_rewrite Hps in Hh. setoid_rewrite Hps in Hu.
    destruct (probe0 j p) eqn:E; [apply Hh|apply Hu]; eauto.
  - intros self.
    pose proof (init_partitioned ps uas fake_ok probe0 clock Hnd) as Hpart.
    destruct (init_spec (Some ps) uas true fake_ok probe0 clock)
      as (self0 & Hinit & Hps & Hua0 & _).
    subst self. rewrite Hinit in *. cbn [snd] in *. rewrite Hor in Hps.
    destruct (serve_sets qs self0 Hua0) as (Hset & Hunion & Hdisj & _).
    set (self := snd (serve qs self0)) in *.
    split; [destruct Hset as (-> & _); exact Hps|].
    split.
    + eapply partitioned_settings; eauto. apply Hdisj, Hpart.
    + intros p Hp Hp'.
      assert (Hua : ua_ready self)
        by (eapply ua_ready_settings; [exact Hset|exact Hua0]).
      rewrite serve1_state in Hp' by exact Hua.
      destruct (get_random_proxy_spec (probe q) (current_time q) (draw q)
                  self) as (chosen & self' & Hget & Hempty & Hpool).
      rewrite Hget in Hp'. cbn [snd] in Hp'.
      destruct (proxies self) as [|a l] eqn:Hl.
      * destruct Hempty as [_ ->]; [reflexivity|].
        exfalso. destruct Hpart as [Hd _].
        apply (Hdisj Hd p); assumption.
      * destruct Hpool as [-> _]; [discriminate|].
        apply recheck_from_promoted in Hp' as [Hp'|Hp']; [|exact Hp'].
        exfalso. destruct Hpart as [Hd _]. apply (Hdisj Hd p); assumption.
  - intros self.
    destruct (init_spec (Some ps) uas false fake_ok probe0 clock)
      as (self0 & Hinit & Hps & Hua0 & _ & Hoff).
    destruct (Hoff eq_refl) as [Hh Hu].
    subst self. rewrite Hinit. cbn [snd]. rewrite Hor in Hps.
    destruct (serve_sets qs self0 Hua0) as (Hset & Hunion & _ & _).
    split; [destruct Hset as (-> & _); exact Hps|].
    rewrite Hh, Hu in Hunion. set_solver.
Qed.

(** The pool of the scenario: one proxy answers, the other does not. *)
Lemma C8_witness :
  p1 ∈ healthy_proxies
         (snd (__init__ (Some [p1; p2]) None true false first_answers
                 (fun _ => 0))) /\
  partitioned
    (snd (serve thousand_requests
            (snd (__init__ (Some [p1; p2]) None true false first_answers
                    (fun _ => 0))))) /\
  healthy_proxies
    (snd (serve thousand_requests
            (snd (__init__ (Some [p1; p2]) None false false first_answers
                    (fun _ => 0))))) = ∅.
Proof.
  assert (Hnd : NoDup [p1; p2])
    by (apply (bool_decide_unpack _); vm_compute; exact I).
  destruct (C8_checked_pool_is_partitioned [p1; p2] None false
              first_answers (fun _ => 0) thousand_requests (request_at 0 0)
              Hnd) as (Hinit & (_ & Hpart & _) & (_ & Hoff & _)).
  split; [|split; [exact Hpart|exact Hoff]].
  exact (Hinit 0%nat p1 eq_refl).
Defined.

(** C8 as the specification words it fails: a manager built with health
    checking disabled has its proxy in the pool and in neither set. *)
Lemma C8_counterexample :
  In p1 (proxies (snd (__init__ (Some [p1]) None false true first_answers
                         (fun _ => 0)))) /\
  (p1 ∉ healthy_proxies (snd (__init__ (Some [p1]) None false true
                                first_answers (fun _ => 0)))) /\
  (p1 ∉ unhealthy_proxies (snd (__init__ (Some [p1]) None false true
                                  first_answers (fun _ => 0)))) /\
  ~ partitioned
      (snd (__init__ (Some [p1]) None false true first_answers (fun _ => 0))).
Proof.
  split; [now left|]. split; [set_solver|]. split; [set_solver|].
  intros [_ Hcover].
  assert (H : p1 ∈ (∅ ∪ ∅ : gset string)).
  { apply (Hcover p1). now left. }
  set_solver.
Qed.

(** The pool is given again, as scraper.py does, and the proxy that was
    healthy fails its second probe: it is in both sets. *)
Remark pool_update_can_overlap :
  let self :=
    snd (update_proxy_list (Some [p1]) no_answer (fun _ => 1)
           (snd (__init__ (Some [p1]) None true true first_answers
                   (fun _ => 0)))) in
  p1 ∈ healthy_proxies self /\ p1 ∈ unhealthy_proxies self.
Proof. vm_compute. split; set_solver. Qed.

End ProxySpec.

(** ** The claim about the decorator *)

Module DecoratorSpec.
Import Cache.

(** [get_cached_data] of [default_cache] raises nothing. *)
Lemma get_cached_data_returns key default now store :
  exists v, fst (get_cached_data key default now store) = Ok v.
Proof.
  destruct store as [c|r]; unfold get_cached_data.
  - rewrite StoreSpec.fst_on_memory,
      InMemoryCacheFacts.get_cached_data_eq.
    destruct (OrderedDict.lookup _ _) as [[d e]|]; [|simpl; eauto].
    destruct (now >? e); simpl; eauto.
  - rewrite StoreSpec.fst_on_redis.
    apply RedisCacheFacts.redis_get_cached_data_returns.
Qed.

Lemma fst_get_memory key d t c :
  fst (get_cached_data key d t (InMemory c))
  = fst (InMemoryCache.get_cached_data key d t c).
Proof. apply StoreSpec.fst_on_memory. Qed.

Lemma snd_get_memory key d t c :
  snd (get_cached_data key d t (InMemory c))
  = InMemory (snd (InMemoryCache.get_cached_data key d t c)).
Proof. apply StoreSpec.snd_on_memory. Qed.

Lemma fst_put_memory key v ttl t c :
  fst (cache_data key v ttl t (InMemory c))
  = fst (InMemoryCache.cache_data key v ttl t c).
Proof. apply StoreSpec.fst_on_memory. Qed.

Lemma snd_put_memory key v ttl t c :
  snd (cache_data key v ttl t (InMemory c))
  = InMemory (snd (InMemoryCache.cache_data key v ttl t c)).
Proof. apply StoreSpec.snd_on_memory. Qed.

Lemma fst_get_redis key d t r :
  fst (get_cached_data key d t (Redis r))
  = fst (RedisCache.get_cached_data key d t r).
Proof. apply StoreSpec.fst_on_redis. Qed.

Lemma snd_get_redis key d t r :
  snd (get_cached_data key d t (Redis r))
  = Redis (snd (RedisCache.get_cached_data key d t r)).
Proof. apply StoreSpec.snd_on_redis. Qed.

Lemma fst_put_redis key v ttl t r :
  fst (cache_data key v ttl t (Redis r))
  = fst (RedisCache.cache_data key v ttl t r).
Proof. apply StoreSpec.fst_on_redis. Qed.

Lemma snd_put_redis key v ttl t r :
  snd (cache_data key v ttl t (Redis r))
  = Redis (snd (RedisCache.cache_data key v ttl t r)).
Proof. apply StoreSpec.snd_on_redis. Qed.

(** A lookup in a networked store that holds the text of [None] under the
    key gives [None]. *)
Lemma redis_null_misses key t at_ (d : gmap string (string * option Z)) up :
  fst (RedisCache.get_cached_data key PNone t
         {| RedisClient.db := <[key := ("null", Some at_)]> d;
            RedisClient.reachable := up |}) = Ok PNone.
Proof.
  rewrite RedisCacheFacts.redis_get_cached_data_eq.
  cbn [RedisClient.reachable RedisClient.db].
  destruct up; [|reflexivity]. rewrite lookup_insert_eq.
  destruct (RedisClient.live t _); reflexivity.
Qed.

(** The networked store: once a lookup has given [None] and [None] has
    been put under the key, every lookup of the key gives [None]. *)
Lemma redis_store_None_misses r key ttl now later t :
  fst (RedisCache.get_cached_data key PNone now r) = Ok PNone ->
  fst (RedisCache.get_cached_data key PNone t
         (snd (RedisCache.cache_data key PNone ttl later
                 (snd (RedisCache.get_cached_data key PNone now r)))))
  = Ok PNone.
Proof.
  rewrite (RedisCacheFacts.redis_get_cached_data_eq key PNone now r).
  rewrite RedisCacheFacts.redis_cache_data_eq.
  change (Json.dumps PNone) with (@Ok string "null").
  intros Hlook.
  destruct (RedisClient.reachable r) eqn:Hup.
  2:{ cbn [snd]. rewrite Hup. cbn [snd].
      now rewrite RedisCacheFacts.redis_get_cached_data_eq, Hup. }
  destruct (RedisClient.db r !! key) as [e|] eqn:Hkey.
  - destruct (RedisClient.live now e) eqn:Hlive.
    + (* the entry is live: it decodes to [None], or does not decode *)
      assert (Hsame : snd (match Json.loads (fst e) with
                           | Ok v => (Ok v, r)
                           | Raise ex =>
                               if RedisError_or_JSONDecodeError ex
                               then (Ok PNone, r) else (Raise ex, r)
                           end) = r).
      { destruct (Json.loads (fst e)) as [v|ex]; [reflexivity|].
        now destruct (RedisError_or_JSONDecodeError ex). }
      rewrite Hsame, Hup.
      destruct (ttl_seconds ttl <=? 0); cbn [snd].
      * rewrite RedisCacheFacts.redis_get_cached_data_eq, Hup, Hkey.
        destruct (RedisClient.live t e); [exact Hlook|reflexivity].
      * apply redis_null_misses.
    + (* the entry has expired: the lookup deletes it *)
      cbn [snd RedisClient.with_db RedisClient.reachable RedisClient.db].
      rewrite Hup.
      destruct (ttl_seconds ttl <=? 0); cbn [snd].
      * rewrite RedisCacheFacts.redis_get_cached_data_eq.
        unfold RedisClient.with_db.
        cbn [RedisClient.reachable RedisClient.db].
        now rewrite Hup, lookup_delete_eq.
      * apply redis_null_misses.
  - cbn [snd]. rewrite Hup.
    destruct (ttl_seconds ttl <=? 0); cbn [snd].
    + now rewrite RedisCacheFacts.redis_get_cached_data_eq, Hup, Hkey.
    + apply redis_null_misses.
Qed.

(** The in-process store: once [None] has been put under the key, every
    lookup of the key gives [None]. *)
Lemma memory_store_None_misses c key ttl later t :
  fst (InMemoryCache.get_cached_data key PNone t
         (snd (InMemoryCache.cache_data key PNone ttl later c)))
  = Ok PNone.
Proof.
  rewrite InMemoryCacheFacts.get_cached_data_eq,
    InMemoryCacheFacts.cache_data_eq.
  destruct (_ >=? _).
  - destruct (InMemoryCache.cache c) as [|kv rest] eqn:E; cbn [snd].
    + now rewrite E.
    + cbn [InMemoryCache.cache InMemoryCache.with_cache].
      rewrite OrderedDictFacts.lookup_setitem_eq. now destruct (t >? _).
  - cbn [snd InMemoryCache.cache InMemoryCache.with_cache].
    rewrite OrderedDictFacts.lookup_setitem_eq. now destruct (t >? _).
Qed.

(** Storing [None] raises nothing. *)
Lemma store_None_returns store key ttl later :
  exists b, fst (cache_data key PNone ttl later store) = Ok b.
Proof.
  destruct store as [c|r].
  - rewrite fst_put_memory. apply InMemoryCacheFacts.cache_data_returns.
  - rewrite fst_put_redis, RedisCacheFacts.redis_cache_data_eq.
    change (Json.dumps PNone) with (@Ok string "null").
    destruct (RedisClient.reachable r); [|simpl; eauto].
    destruct (ttl_seconds ttl <=? 0); simpl; eauto.
Qed.

(** Once a lookup has given [None] and [None] has been stored under the
    key, every lookup of the key gives [None]. *)
Lemma store_None_misses store key ttl now later :
  fst (get_cached_data key PNone now store) = Ok PNone ->
  misses (snd (cache_data key PNone ttl later
                 (snd (get_cached_data key PNone now store)))) key.
Proof.
  intros Hlook t. destruct store as [c|r].
  - rewrite snd_get_memory, snd_put_memory, fst_get_memory.
    apply memory_store_None_misses.
  - rewrite fst_get_redis in Hlook.
    rewrite snd_get_redis, snd_put_redis, fst_get_redis.
    now apply redis_store_None_misses.
Qed.

Section Wrapper.
Context {W Args : Type}.
Variables (ttl : ttl_arg) (name : string) (hash : string -> Z)
  (repr : Args -> string) (func : Args -> M W pyval) (args : Args).

Let key : string := cache_key name hash repr args.

(** A hit: the cached value is returned and [func] is not executed. *)
Lemma cache_response_hit (p : @process W) c now later v :
  default_cache p = Some c ->
  fst (get_cached_data key PNone now c) = Ok v ->
  is_None v = false ->
  cache_response ttl name hash repr func args now later p
  = (Ok v,
     {| default_cache := Some (snd (get_cached_data key PNone now c));
        world := world p; executions := executions p |}).
Proof.
  intros Hc Hget Hv.
  unfold cache_response, bind at 1, Py.get. rewrite Hc.
  unfold bind at 1, with_cache at 1. fold key.
  destruct (get_cached_data key PNone now c) as [r c1].
  cbn [fst snd] in *. subst r. now rewrite Hv.
Qed.

(** A miss: [func] is executed once, and its response is stored and
    returned. *)
Lemma cache_response_miss (p : @process W) c now later response w b :
  default_cache p = Some c ->
  fst (get_cached_data key PNone now c) = Ok PNone ->
  func args (world p) = (Ok response, w) ->
  fst (cache_data key response ttl later
         (snd (get_cached_data key PNone now c))) = Ok b ->
  cache_response ttl name hash repr func args now later p
  = (Ok response,
     {| default_cache :=
          Some (snd (cache_data key response ttl later
                       (snd (get_cached_data key PNone now c))));
        world := w; executions := S (executions p) |}).
Proof.
  intros Hc Hget Hfunc Hput.
  unfold cache_response, bind at 1, Py.get. rewrite Hc.
  unfold bind at 1, with_cache at 1. fold key.
  destruct (get_cached_data key PNone now c) as [r c1].
  cbn [fst snd] in *. subst r. cbn [is_None negb].
  unfold bind at 1, await. cbn [world]. rewrite Hfunc.
  unfold bind at 1, Py.get. cbn [default_cache].
  unfold bind, with_cache, ret. cbn [world executions].
  destruct (cache_data key response ttl later c1) as [r2 c2].
  cbn [fst snd] in *. now subst r2.
Qed.

Lemma call_repeatedly_cons now later times (p : @process W) :
  call_repeatedly ttl name hash repr func args ((now, later) :: times) p =
  (fst (cache_response ttl name hash repr func args now later p)
     :: fst (call_repeatedly ttl name hash repr func args times
               (snd (cache_response ttl name hash repr func args now later p))),
   snd (call_repeatedly ttl name hash repr func args times
          (snd (cache_response ttl name hash repr func args now later p)))).
Proof.
  cbn [call_repeatedly].
  destruct (cache_response ttl name hash repr func args now later p)
    as [r p1].
  cbn [fst snd]. now destruct (call_repeatedly _ _ _ _ _ _ times p1).
Qed.

(** While every lookup of the key gives [None], a computation that
    returns [None] is executed by every call. *)
Lemma call_repeatedly_misses times : forall (p : @process W) c,
  (forall a w, fst (func a w) = Ok PNone) ->
  default_cache p = Some c ->
  misses c key ->
  Forall (eq (Ok PNone))
    (fst (call_repeatedly ttl name hash repr func args times p)) /\
  executions (snd (call_repeatedly ttl name hash repr func args times p))
  = (executions p + length times)%nat.
Proof.
  induction times as [|[now later] times IH]; intros p c Hnone Hc Hmiss.
  - split; [constructor|]. cbn. lia.
  - rewrite call_repeatedly_cons. cbn [fst snd length].
    destruct (func args (world p)) as [r w] eqn:Hfunc.
    pose proof (Hnone args (world p)) as Hr. rewrite Hfunc in Hr.
    cbn [fst] in Hr. subst r.
    destruct (store_None_returns (snd (get_cached_data key PNone now c))
                key ttl later) as (b & Hput).
    rewrite (cache_response_miss p c now later PNone w b Hc (Hmiss now)
               Hfunc Hput).
    cbn [fst snd].
    match goal with
    | |- context [call_repeatedly _ _ _ _ _ _ times ?p1] =>
        destruct (IH p1 _ Hnone eq_refl) as [IH1 IH2];
          [apply store_None_misses, Hmiss|]
    end.
    split; [constructor; [reflexivity|exact IH1]|].
    rewrite IH2. cbn [executions]. lia.
Qed.

(** C10. The decorator treats a cached [None] as a miss. A value other
    than [None] that the lookup finds is returned without [func] being
    executed. A computation that returns [None] is executed by every call,
    once the lookup of the first call has found nothing but [None]: its
    result is stored and never served. *)
Theorem C10_cached_None_is_a_miss :
  (forall (p : @process W) c now later v,
     default_cache p = Some c ->
     fst (get_cached_data key PNone now c) = Ok v ->
     is_None v = false ->
     exists p',
       cache_response ttl name hash repr func args now later p = (Ok v, p') /\
       executions p' = executions p /\
       world p' = world p) /\
  (forall (p : @process W) c now later times,
     (forall a w, fst (func a w) = Ok PNone) ->
     default_cache p = Some c ->
     fst (get_cached_data key PNone now c) = Ok PNone ->
     let run :=
       call_repeatedly ttl name hash repr func args ((now, later) :: times) p in
     Forall (eq (Ok PNone)) (fst run) /\
     executions (snd run) = (executions p + S (length times))%nat).
Proof.
  split.
  - intros p c now later v Hc Hget Hv.
    eexists. split; [now apply (cache_response_hit p c now later v)|].
    split; reflexivity.
  - intros p c now later times Hnone Hc Hget run. subst run.
    rewrite call_repeatedly_cons. cbn [fst snd].
    destruct (func args (world p)) as [r w] eqn:Hfunc.
    pose proof (Hnone args (world p)) as Hr. rewrite Hfunc in Hr.
    cbn [fst] in Hr. subst r.
    destruct (store_None_returns (snd (get_cached_data key PNone now c))
                key ttl later) as (b & Hput).
    rewrite (cache_response_miss p c now later PNone w b Hc Hget Hfunc Hput).
    cbn [fst snd].
    match goal with
    | |- context [call_repeatedly _ _ _ _ _ _ times ?p1] =>
        destruct (call_repeatedly_misses times p1 _ Hnone eq_refl)
          as [H1 H2]; [now apply store_None_misses|]
    end.
    split; [constructor; [reflexivity|exact H1]|].
    rewrite H2. cbn [executions]. lia.
Qed.

End Wrapper.

(** A coroutine that returns [None] is run by each of three calls; a
    cached 7 is served without a run. *)
Lemma C10_witness :
  executions
    (snd (call_repeatedly (TtlInt 300) "get_data" (fun _ => 42)
            (fun _ => "()") Calls.returns_none tt [(0, 1); (2, 3); (4, 5)]
            Calls.fresh_process)) = 3%nat /\
  exists p',
    cache_response (TtlInt 300) "get_data" (fun _ => 42) (fun _ => "()")
      Calls.returns_seven tt 10 11 Calls.warm_process = (Ok (PInt 7), p') /\
    executions p' = 0%nat.
Proof.
  destruct (C10_cached_None_is_a_miss (TtlInt 300) "get_data"
              (fun _ => 42) (fun _ : unit => "()") Calls.returns_none tt)
    as [_ Hmiss].
  destruct (C10_cached_None_is_a_miss (TtlInt 300) "get_data"
              (fun _ => 42) (fun _ : unit => "()") Calls.returns_seven tt)
    as [Hhit _].
  split.
  - destruct (Hmiss Calls.fresh_process
                (InMemory (InMemoryCache.__init__ InMemoryCache.default_max_size))
                0 1 [(2, 3); (4, 5)]) as [_ Hruns].
    + intros a w. reflexivity.
    + reflexivity.
    + vm_compute. reflexivity.
    + exact Hruns.
  - destruct (Hhit Calls.warm_process Calls.warm_store 10 11 (PInt 7))
      as (p' & Hcall & Hruns & _).
    + reflexivity.
    + vm_compute. reflexivity.
    + reflexivity.
    + exists p'. split; [exact Hcall|exact Hruns].
Defined.

End DecoratorSpec.


(** * Further properties *)

(** ** The in-process store: deletion, clearing, frames *)

Module InMemoryLaws.
Import OrderedDict OrderedDictFacts InMemoryCache InMemoryCacheFacts.

Lemma lookup_remove_ne (d : OrderedDict.t entry) k k' :
  k <> k' -> lookup (remove d k) k' = lookup d k'.
Proof.
  intros Hne. induction d as [|[k0 e0] d IH]; simpl; [reflexivity|].
  destruct (String.eqb_spec k0 k) as [E|E]; simpl.
  - subst. destruct (String.eqb_spec k k'); [contradiction|reflexivity].
  - destruct (String.eqb_spec k0 k'); [reflexivity|exact IH].
Qed.

Lemma length_remove_present (d : OrderedDict.t entry) k :
  contains d k = true -> S (length (remove d k)) = length d.
Proof.
  unfold contains. induction d as [|[k0 e0] d IH]; simpl; [discriminate|].
  destruct (String.eqb_spec k0 k); simpl; [reflexivity|].
  intros H. now rewrite IH.
Qed.

Lemma lookup_remove_eq (d : OrderedDict.t entry) k :
  wf d -> lookup (remove d k) k = None.
Proof.
  intros Hwf. pose proof (contains_remove d k Hwf) as H.
  unfold contains in H. now destruct (lookup (remove d k) k).
Qed.

(** After [delete_cached_data] the key reads as absent at every instant,
    one entry less is held if the key was present, and no other key is
    touched. *)
Theorem delete_removes_exactly_the_key
    (self : t) (key : string) (default : pyval) (now : Z) :
  wf (cache self) ->
  let self' := snd (delete_cached_data key self) in
  fst (get_cached_data key default now self') = Ok default /\
  contains (cache self') key = false /\
  (forall k, k <> key -> lookup (cache self') k = lookup (cache self) k) /\
  length (cache self')
  = (if contains (cache self) key then pred (length (cache self))
     else length (cache self)) /\
  max_size self' = max_size self.
Proof.
  intros Hwf self'. subst self'. rewrite delete_cached_data_eq. cbn [snd].
  destruct (contains (cache self) key) eqn:Hin.
  - cbn [cache with_cache max_size].
    rewrite get_cached_data_eq. cbn [cache with_cache].
    rewrite lookup_remove_eq by exact Hwf.
    repeat split.
    + now apply contains_remove.
    + intros k Hk. now apply lookup_remove_ne.
    + rewrite <- (length_remove_present _ _ Hin). reflexivity.
  - rewrite get_cached_data_eq.
    unfold contains in Hin.
    destruct (lookup (cache self) key) eqn:E; [discriminate|].
    repeat split. unfold contains. now rewrite E.
Qed.

Lemma delete_removes_exactly_the_key_witness :
  wf (cache Calls.full_ab) /\
  fst (get_cached_data "a" PNone 5
         (snd (delete_cached_data "a" Calls.full_ab))) = Ok PNone /\
  lookup (cache (snd (delete_cached_data "a" Calls.full_ab))) "b"
  = lookup (cache Calls.full_ab) "b" /\
  length (cache (snd (delete_cached_data "a" Calls.full_ab))) = 1%nat.
Proof.
  assert (Hwf : wf (cache Calls.full_ab))
    by (unfold wf; apply (bool_decide_unpack _); vm_compute; exact I).
  destruct (delete_removes_exactly_the_key Calls.full_ab "a" PNone 5 Hwf)
    as (Hread & _ & Hothers & Hlen & _).
  split; [exact Hwf|]. split; [exact Hread|].
  split; [apply Hothers; discriminate|].
  rewrite Hlen. reflexivity.
Defined.

(** [clear_cache] does not look at its pattern: whatever the pattern, it
    reports success and leaves the store as [__init__] builds it, so that
    every key reads as absent. *)
Theorem clear_cache_empties_whatever_the_pattern
    (self : t) (pattern key : string) (default : pyval) (now : Z) :
  clear_cache pattern self = (Ok true, __init__ (max_size self)) /\
  fst (get_cached_data key default now (snd (clear_cache pattern self)))
  = Ok default.
Proof. split; reflexivity. Qed.


(** [cache_data] touches the binding of its key and, when the store is
    full, the oldest binding; every other key keeps its payload and its
    expiry. *)
Theorem cache_data_leaves_other_keys
    (self : t) (key : string) (data : pyval) (ttl : ttl_arg) (now : Z)
    (k : string) :
  wf (cache self) ->
  k <> key ->
  let self' := snd (cache_data key data ttl now self) in
  (Z.of_nat (length (cache self)) < max_size self ->
   lookup (cache self') k = lookup (cache self) k) /\
  (forall oldest e rest,
     max_size self <= Z.of_nat (length (cache self)) ->
     cache self = (oldest, e) :: rest ->
     lookup (cache self') k
     = if String.eqb oldest k then None else lookup (cache self) k).
Proof.
  intros Hwf Hne self'. subst self'. rewrite cache_data_eq. split.
  - intros Hroom.
    replace (Z.of_nat (length (cache self)) >=? max_size self) with false
      by (symmetry; rewrite Z.geb_leb; apply Z.leb_gt; lia).
    cbn [snd cache with_cache]. apply lookup_setitem_ne. congruence.
  - intros oldest e rest Hfull Hc.
    replace (Z.of_nat (length (cache self)) >=? max_size self) with true
      by (symmetry; apply Z.geb_le; lia).
    rewrite Hc in *. cbn [snd cache with_cache].
    rewrite lookup_setitem_ne by congruence. cbn [lookup].
    destruct (String.eqb_spec oldest k) as [E|E]; [|reflexivity].
    subst k. unfold wf in Hwf. cbn in Hwf.
    apply NoDup_cons in Hwf as [Hnotin _].
    apply lookup_None_keys. now rewrite list_elem_of_In in Hnotin.
Qed.

Lemma cache_data_leaves_other_keys_witness :
  wf (cache Calls.full_ab) /\
  "b" <> "c" /\
  lookup (cache (snd (cache_data "c" (PInt 3) (TtlInt 60) 2 Calls.full_ab)))
         "b"
  = Some (PInt 2, expiry (TtlInt 60) 1) /\
  lookup (cache (snd (cache_data "c" (PInt 3) (TtlInt 60) 2
                        (__init__ 1000)))) "b"
  = None.
Proof.
  assert (Hwf : wf (cache Calls.full_ab))
    by (unfold wf; apply (bool_decide_unpack _); vm_compute; exact I).
  assert (Hne : "b" <> "c") by discriminate.
  destruct (cache_data_leaves_other_keys Calls.full_ab "c" (PInt 3)
              (TtlInt 60) 2 "b" Hwf Hne) as [_ Hfull].
  destruct (cache_data_leaves_other_keys (__init__ 1000) "c" (PInt 3)
              (TtlInt 60) 2 "b"
              (NoDup_nil_2 : wf (cache (__init__ 1000))) Hne) as [Hroom _].
  split; [exact Hwf|]. split; [exact Hne|]. split.
  - rewrite (Hfull "a" (PInt 1, expiry (TtlInt 60) 0)
               [("b", (PInt 2, expiry (TtlInt 60) 1))]);
      [reflexivity|vm_compute; discriminate|reflexivity].
  - rewrite Hroom; [reflexivity|reflexivity].
Defined.

(** A read never changes the store unless it finds its key expired: a
    live entry is returned and the store, the order of its entries
    included, stays as it is; an expired entry is removed and nothing
    else; an absent key changes nothing. *)
Theorem get_cached_data_changes_only_an_expired_key
    (self : t) (key : string) (default : pyval) (now : Z) :
  let read := get_cached_data key default now self in
  (forall data expires_at,
     lookup (cache self) key = Some (data, expires_at) ->
     now <= expires_at -> read = (Ok data, self)) /\
  (lookup (cache self) key = None -> read = (Ok default, self)) /\
  (forall data expires_at,
     lookup (cache self) key = Some (data, expires_at) ->
     expires_at < now ->
     read = (Ok default, with_cache self (remove (cache self) key))) /\
  (forall k, k <> key ->
     lookup (cache (snd read)) k = lookup (cache self) k).
Proof.
  intros read. subst read. rewrite get_cached_data_eq.
  split; [|split; [|split]].
  - intros data e -> Hlive.
    replace (now >? e) with false
      by (symmetry; rewrite Z.gtb_ltb; apply Z.ltb_ge; lia).
    reflexivity.
  - now intros ->.
  - intros data e -> Hdead.
    replace (now >? e) with true by (symmetry; apply Z.gtb_lt; lia).
    reflexivity.
  - intros k Hk.
    destruct (lookup (cache self) key) as [[data e]|]; [|reflexivity].
    destruct (now >? e); [|reflexivity].
    cbn [snd cache with_cache]. now apply lookup_remove_ne.
Qed.

End InMemoryLaws.

(** ** The networked store: outcomes of put, get, delete and clear *)

Module RedisLaws.
Import RedisClient RedisCache RedisCacheFacts.

(** A key that is gone stays gone. *)
Lemma live_earlier now later e :
  now <= later -> live later e = true -> live now e = true.
Proof.
  unfold live. destruct (snd e) as [at_|]; [|reflexivity].
  intros Hle H. apply negb_true_iff in H. apply negb_true_iff.
  rewrite Z.gtb_ltb in *. apply Z.ltb_ge in H. apply Z.ltb_ge. lia.
Qed.




(** [delete_cached_data] returns [True] exactly when the server can be
    reached and the key existed; on a server that can be reached the key
    then reads as absent and no other key is touched. *)
Theorem redis_delete_outcome
    (r : RedisCache.t) (key : string) (now : Z) :
  let deleted := delete_cached_data key now r in
  (fst deleted = Ok true <->
   reachable r = true /\
   exists e, db r !! key = Some e /\ live now e = true) /\
  (fst deleted <> Ok true -> fst deleted = Ok false) /\
  (reachable r = true ->
   db (snd deleted) !! key = None /\
   (forall k, k <> key -> db (snd deleted) !! k = db r !! k) /\
   forall default t,
     fst (get_cached_data key default t (snd deleted)) = Ok default).
Proof.
  intros deleted. subst deleted. rewrite redis_delete_cached_data_eq.
  destruct (reachable r) eqn:Hup.
  - destruct (db r !! key) as [e|] eqn:Hkey; cbn [fst snd].
    + split.
      { split.
        - intros H. split; [reflexivity|]. exists e. split; congruence.
        - intros (_ & e' & He' & Hlive). congruence. }
      split; [destruct (live now e); congruence|].
      intros _. cbn [with_db db].
      split; [apply lookup_delete_eq|].
      split; [intros k Hk; apply lookup_delete_ne; congruence|].
      intros default t. rewrite redis_get_cached_data_eq.
      cbn [with_db reachable db]. now rewrite Hup, lookup_delete_eq.
    + split.
      { split; [discriminate|]. intros (_ & e & He & _). discriminate. }
      split; [reflexivity|]. intros _.
      split; [exact Hkey|]. split; [reflexivity|].
      intros default t. now rewrite redis_get_cached_data_eq, Hup, Hkey.
  - cbn [fst snd].
    split; [split; [discriminate|intros [H _]; discriminate]|].
    split; [reflexivity|discriminate].
Qed.

(** The keys that [KEYS] gives: those that exist and match. *)
Lemma keys_spec glob pattern now r :
  reachable r = true ->
  exists ks,
    keys glob pattern now r = (Ok ks, r) /\
    forall k, In k ks <->
      exists e, db r !! k = Some e /\
                glob pattern k = true /\ live now e = true.
Proof.
  intros Hup. unfold keys, command, bind, Py.get, ret. rewrite Hup.
  eexists. split; [reflexivity|]. intros k.
  rewrite in_map_iff. split.
  - intros ([k' e] & <- & HIn). apply filter_In in HIn as [HIn Hok].
    apply andb_true_iff in Hok as [Hglob Hlive].
    apply list_elem_of_In, elem_of_map_to_list in HIn. eauto.
  - intros (e & Hk & Hglob & Hlive). exists (k, e). split; [reflexivity|].
    apply filter_In. split.
    + now apply list_elem_of_In, elem_of_map_to_list.
    + cbn [fst snd]. now rewrite Hglob, Hlive.
Qed.

(** What [DEL] leaves, and what it counts. *)
Lemma delete_keys_spec ks now : forall d,
  (forall k, In k ks -> snd (delete_keys ks now d) !! k = None) /\
  (forall k, ~ In k ks -> snd (delete_keys ks now d) !! k = d !! k) /\
  0 <= fst (delete_keys ks now d) /\
  ((exists k e, In k ks /\ d !! k = Some e /\ live now e = true) ->
   0 < fst (delete_keys ks now d)).
Proof.
  induction ks as [|k0 ks IH]; intros d.
  - cbn. repeat split; try tauto; try lia.
    intros (k & e & [] & _).
  - cbn [delete_keys].
    specialize (IH (delete k0 d)).
    destruct (delete_keys ks now (delete k0 d)) as [n d'] eqn:E.
    cbn [fst snd] in *. destruct IH as (Hin & Hout & Hn & Hpos).
    assert (Hrem : 0 <= match d !! k0 with
                        | Some e => if live now e then 1 else 0
                        | None => 0
                        end).
    { destruct (d !! k0) as [e|]; [destruct (live now e)|]; lia. }
    split; [|split; [|split]].
    + intros k [->|Hk].
      * destruct (in_dec string_dec k ks) as [Hk|Hk]; [now apply Hin|].
        rewrite Hout by exact Hk. apply lookup_delete_eq.
      * now apply Hin.
    + intros k Hk. rewrite Hout by (intros H; apply Hk; now right).
      apply lookup_delete_ne. intros ->. apply Hk. now left.
    + lia.
    + intros (k & e & [->|Hk] & Hd & Hlive).
      * rewrite Hd, Hlive. lia.
      * destruct (string_dec k0 k) as [->|Hne].
        -- rewrite Hd, Hlive. lia.
        -- enough (0 < n) by lia. apply Hpos. exists k, e.
           split; [exact Hk|]. split; [|exact Hlive].
           now rewrite lookup_delete_ne.
Qed.

(** What [clear_cache] does on a server that can be reached. *)
Lemma redis_clear_cache_eq glob pattern now later r :
  reachable r = true ->
  exists ks,
    (forall k, In k ks <->
       exists e, db r !! k = Some e /\
                 glob pattern k = true /\ live now e = true) /\
    clear_cache glob pattern now later r =
    match ks with
    | [] => (Ok true, r)
    | _ :: _ =>
        (Ok (bool_of_int (fst (delete_keys ks later (db r)))),
         with_db r (snd (delete_keys ks later (db r))))
    end.
Proof.
  intros Hup. destruct (keys_spec glob pattern now r Hup) as (ks & Hks & Hin).
  exists ks. split; [exact Hin|].
  unfold clear_cache, try_except, bind at 1. rewrite Hks.
  destruct ks as [|k ks]; [reflexivity|].
  unfold delete_many, command, bind, Py.get, set_db, ret. rewrite Hup.
  destruct (delete_keys (k :: ks) later (db r)) as [n d']. reflexivity.
Qed.

(** [clear_cache] on a server that can be reached: every key that matches
    the pattern reads as absent from then on, and no key that does not
    match is touched. It reports success when no key matches, and when a
    key that matches is still there at the deletion. *)
Theorem redis_clear_cache_removes_the_matches
    (glob : string -> string -> bool) (pattern : string) (now later : Z)
    (r : RedisCache.t) :
  reachable r = true ->
  now <= later ->
  let cleared := clear_cache glob pattern now later r in
  (forall k default t,
     glob pattern k = true -> now <= t ->
     fst (get_cached_data k default t (snd cleared)) = Ok default) /\
  (forall k, glob pattern k = false -> db (snd cleared) !! k = db r !! k) /\
  ((forall k e, db r !! k = Some e -> glob pattern k = true ->
                live now e = false) ->
   cleared = (Ok true, r)) /\
  ((exists k e, db r !! k = Some e /\ glob pattern k = true /\
                live later e = true) ->
   fst cleared = Ok true).
Proof.
  intros Hup Hle cleared. subst cleared.
  destruct (redis_clear_cache_eq glob pattern now later r Hup)
    as (ks & Hin & ->).
  pose proof (delete_keys_spec ks later (db r)) as (Hgone & Hkept & _ & Hpos).
  assert (Hmatch : forall k e t,
    db r !! k = Some e -> glob pattern k = true -> now <= t ->
    live t e = true -> In k ks).
  { intros k e t He Hglob Ht Hlive. apply Hin. exists e.
    split; [exact He|]. split; [exact Hglob|].
    now apply (live_earlier now t). }
  destruct ks as [|k0 ks'] eqn:Eks.
  - (* no key matches *)
    cbn [fst snd]. split; [|split; [|split]]; try reflexivity.
    intros k default t Hglob Ht.
    rewrite redis_get_cached_data_eq, Hup.
    destruct (db r !! k) as [e|] eqn:He; [|reflexivity].
    destruct (live t e) eqn:Hlive; [|reflexivity].
    destruct (Hmatch k e t He Hglob Ht Hlive).
  - rewrite <- Eks in *. cbn [fst snd].
    split; [|split; [|split]].
    + intros k default t Hglob Ht.
      rewrite redis_get_cached_data_eq. cbn [with_db reachable db].
      rewrite Hup.
      destruct (in_dec string_dec k ks) as [Hk|Hk];
        [now rewrite Hgone|].
      rewrite Hkept by exact Hk.
      destruct (db r !! k) as [e|] eqn:He; [|reflexivity].
      destruct (live t e) eqn:Hlive; [|reflexivity].
      destruct (Hk (Hmatch k e t He Hglob Ht Hlive)).
    + intros k Hglob. cbn [with_db db]. apply Hkept.
      intros Hk. apply Hin in Hk as (e & _ & Hg & _). congruence.
    + intros Hnone. exfalso.
      assert (Hk0 : In k0 ks) by (rewrite Eks; now left).
      apply Hin in Hk0 as (e & He & Hg & Hl).
      rewrite (Hnone k0 e He Hg) in Hl. discriminate.
    + intros (k & e & He & Hg & Hlive).
      assert (Hk : In k ks) by (now apply (Hmatch k e later)).
      unfold bool_of_int.
      assert (0 < fst (delete_keys ks later (db r))).
      { apply Hpos. now exists k, e. }
      destruct (Z.eqb_spec (fst (delete_keys ks later (db r))) 0); [lia|].
      reflexivity.
Qed.

Lemma redis_clear_cache_removes_the_matches_witness :
  reachable Calls.two_endpoints = true /\
  1 <= 2 /\
  fst (get_cached_data "get_data:42" PNone 3
         (snd (clear_cache Calls.prefix_star "get_data:*" 1 2
                 Calls.two_endpoints))) = Ok PNone /\
  db (snd (clear_cache Calls.prefix_star "get_data:*" 1 2
             Calls.two_endpoints)) !! "get_menu:7"
  = db Calls.two_endpoints !! "get_menu:7" /\
  fst (clear_cache Calls.prefix_star "get_data:*" 1 2 Calls.two_endpoints)
  = Ok true /\
  clear_cache Calls.prefix_star "get_user:*" 1 2 Calls.two_endpoints
  = (Ok true, Calls.two_endpoints).
Proof.
  assert (Hreach : reachable Calls.two_endpoints = true) by reflexivity.
  assert (Hle : 1 <= 2) by lia.
  destruct (redis_clear_cache_removes_the_matches Calls.prefix_star
              "get_data:*" 1 2 Calls.two_endpoints Hreach Hle)
    as (Hgone & Hkept & _ & Hsome).
  destruct (redis_clear_cache_removes_the_matches Calls.prefix_star
              "get_user:*" 1 2 Calls.two_endpoints Hreach Hle)
    as (_ & _ & Hnone & _).
  split; [exact Hreach|]. split; [exact Hle|].
  split; [apply Hgone; [reflexivity|lia]|].
  split; [apply Hkept; reflexivity|]. split.
  - apply Hsome. exists "get_data:42", ("7", Some 300000000).
    split; [vm_compute; reflexivity|]. split; reflexivity.
  - apply Hnone. intros k e Hk Hmatch.
    assert (Hin : k = "get_data:42" \/ k = "get_menu:7").
    { destruct (decide (k = "get_data:42")) as [|N1]; [now left|].
      destruct (decide (k = "get_menu:7")) as [|N2]; [now right|].
      exfalso. unfold Calls.two_endpoints in Hk.
      rewrite !redis_cache_data_eq in Hk. cbn in Hk.
      rewrite lookup_insert_ne in Hk by congruence.
      rewrite lookup_insert_ne in Hk by congruence.
      rewrite lookup_empty in Hk. discriminate. }
    destruct Hin as [-> | ->]; vm_compute in Hmatch; discriminate.
Defined.

End RedisLaws.

(** ** Both stores behind one interface: start-up and overwriting *)

Module CacheLaws.
Import Cache.








End CacheLaws.

(** ** The decorator: hits after a miss, exceptions *)

Module DecoratorLaws.
Import Cache.

Section Wrapper.
Context {W Args : Type}.
Variables (ttl : ttl_arg) (name : string) (hash : string -> Z)
  (repr : Args -> string) (func : Args -> M W pyval).

(** A miss on which [func] raises: the exception goes to the caller and
    the store is left as the lookup left it. *)
Lemma cache_response_raise (args : Args) (p : @process W) c now later e w :
  default_cache p = Some c ->
  fst (get_cached_data (cache_key name hash repr args) PNone now c)
  = Ok PNone ->
  func args (world p) = (Raise e, w) ->
  cache_response ttl name hash repr func args now later p
  = (Raise e,
     {| default_cache :=
          Some (snd (get_cached_data (cache_key name hash repr args)
                       PNone now c));
        world := w; executions := S (executions p) |}).
Proof.
  intros Hc Hget Hfunc.
  unfold cache_response, bind at 1, Py.get. rewrite Hc.
  unfold bind at 1, with_cache at 1.
  destruct (get_cached_data (cache_key name hash repr args) PNone now c)
    as [r c1].
  cbn [fst snd] in *. subst r. cbn [is_None negb].
  unfold bind at 1, await. cbn [world]. now rewrite Hfunc.
Qed.

(** A miss on which the store raises while it takes the response. *)
Lemma cache_response_store_raises (args : Args) (p : @process W) c now later
    response w e :
  default_cache p = Some c ->
  fst (get_cached_data (cache_key name hash repr args) PNone now c)
  = Ok PNone ->
  func args (world p) = (Ok response, w) ->
  fst (cache_data (cache_key name hash repr args) response ttl later
         (snd (get_cached_data (cache_key name hash repr args) PNone now c)))
  = Raise e ->
  cache_response ttl name hash repr func args now later p
  = (Raise e,
     {| default_cache :=
          Some (snd (cache_data (cache_key name hash repr args) response
                       ttl later
                       (snd (get_cached_data
                               (cache_key name hash repr args) PNone now c))));
        world := w; executions := S (executions p) |}).
Proof.
  intros Hc Hget Hfunc Hput.
  unfold cache_response, bind at 1, Py.get. rewrite Hc.
  unfold bind at 1, with_cache at 1.
  destruct (get_cached_data (cache_key name hash repr args) PNone now c)
    as [r c1].
  cbn [fst snd] in *. subst r. cbn [is_None negb].
  unfold bind at 1, await. cbn [world]. rewrite Hfunc.
  unfold bind at 1, Py.get. cbn [default_cache].
  unfold bind, with_cache, ret. cbn [world executions].
  destruct (cache_data (cache_key name hash repr args) response ttl later c1)
    as [r2 c2].
  cbn [fst snd] in *. now subst r2.
Qed.


(** An exception of [func] goes through the wrapper to the caller, and
    nothing is stored: the store is as the lookup left it, and the next
    lookup of the key gives [None] again if the key was absent. *)
Theorem cache_response_lets_exceptions_through
    (args : Args) (p : @process W) (c : instance) (now later : Z)
    (e : exn) (w : W) :
  default_cache p = Some c ->
  fst (get_cached_data (cache_key name hash repr args) PNone now c)
  = Ok PNone ->
  func args (world p) = (Raise e, w) ->
  let call := cache_response ttl name hash repr func args now later p in
  fst call = Raise e /\
  default_cache (snd call)
  = Some (snd (get_cached_data (cache_key name hash repr args) PNone now c)) /\
  executions (snd call) = S (executions p) /\
  world (snd call) = w.
Proof.
  intros Hc Hget Hfunc call. subst call.
  rewrite (cache_response_raise args p c now later e w Hc Hget Hfunc).
  now repeat split.
Qed.

(** With the networked store as the default instance, a response that
    [json.dumps] rejects makes the wrapper raise [TypeError] after [func]
    has run and returned; with the in-process store the same call returns
    the response. *)
Theorem cache_response_raises_on_unserializable_response
    (args : Args) (p : @process W) (now later : Z) (response : pyval)
    (w : W) :
  Json.dumps response = Raise TypeError ->
  func args (world p) = (Ok response, w) ->
  (forall r,
     default_cache p = Some (Redis r) ->
     fst (get_cached_data (cache_key name hash repr args) PNone now (Redis r))
     = Ok PNone ->
     let call := cache_response ttl name hash repr func args now later p in
     fst call = Raise TypeError /\
     executions (snd call) = S (executions p)) /\
  (forall c,
     default_cache p = Some (InMemory c) ->
     fst (get_cached_data (cache_key name hash repr args) PNone now
            (InMemory c)) = Ok PNone ->
     fst (cache_response ttl name hash repr func args now later p)
     = Ok response).
Proof.
  intros Hdumps Hfunc. split.
  - intros r Hc Hget call. subst call.
    rewrite (cache_response_store_raises args p (Redis r) now later
               response w TypeError Hc Hget Hfunc); [now split|].
    rewrite DecoratorSpec.snd_get_redis, DecoratorSpec.fst_put_redis,
      RedisCacheFacts.redis_cache_data_eq, Hdumps.
    reflexivity.
  - intros c Hc Hget.
    destruct (InMemoryCacheFacts.cache_data_returns
                (cache_key name hash repr args) response ttl later
                (snd (InMemoryCache.get_cached_data
                        (cache_key name hash repr args) PNone now c)))
      as (b & Hput).
    rewrite (DecoratorSpec.cache_response_miss ttl name hash repr func args
               p (InMemory c) now later response w b Hc Hget Hfunc);
      [reflexivity|].
    now rewrite DecoratorSpec.snd_get_memory, DecoratorSpec.fst_put_memory.
Qed.

End Wrapper.


Lemma cache_response_lets_exceptions_through_witness :
  fst (cache_response (TtlInt 300) "get_data" (fun _ => 42)
         (fun _ : unit => "()") Calls.raises_value_error tt 0 1
         Calls.fresh_process) = Raise ValueError /\
  default_cache
    (snd (cache_response (TtlInt 300) "get_data" (fun _ => 42)
            (fun _ : unit => "()") Calls.raises_value_error tt 0 1
            Calls.fresh_process))
  = default_cache Calls.fresh_process.
Proof.
  destruct (cache_response_lets_exceptions_through (TtlInt 300)
              "get_data" (fun _ => 42) (fun _ : unit => "()")
              Calls.raises_value_error tt Calls.fresh_process
              (InMemory (InMemoryCache.__init__ InMemoryCache.default_max_size))
              0 1 ValueError 1%nat)
    as (Hraise & Hstore & _).
  - reflexivity.
  - vm_compute. reflexivity.
  - reflexivity.
  - split; [exact Hraise|]. rewrite Hstore. reflexivity.
Defined.

Lemma cache_response_raises_on_unserializable_response_witness :
  Json.dumps (PSet [PInt 1]) = Raise TypeError /\
  fst (cache_response (TtlInt 300) "get_data" (fun _ => 42)
         (fun _ : unit => "()") Calls.returns_a_set tt 0 1
         Calls.redis_process) = Raise TypeError /\
  fst (cache_response (TtlInt 300) "get_data" (fun _ => 42)
         (fun _ : unit => "()") Calls.returns_a_set tt 0 1
         Calls.fresh_process) = Ok (PSet [PInt 1]).
Proof.
  assert (Hdumps : Json.dumps (PSet [PInt 1]) = Raise TypeError)
    by (vm_compute; reflexivity).
  destruct (cache_response_raises_on_unserializable_response (TtlInt 300)
              "get_data" (fun _ => 42) (fun _ : unit => "()")
              Calls.returns_a_set tt Calls.redis_process 0 1
              (PSet [PInt 1]) 1%nat Hdumps eq_refl) as [Hredis _].
  destruct (cache_response_raises_on_unserializable_response (TtlInt 300)
              "get_data" (fun _ => 42) (fun _ : unit => "()")
              Calls.returns_a_set tt Calls.fresh_process 0 1
              (PSet [PInt 1]) 1%nat Hdumps eq_refl) as [_ Hmemory].
  split; [exact Hdumps|]. split.
  - destruct (Hredis empty_server eq_refl) as [Hraise _].
    + vm_compute. reflexivity.
    + exact Hraise.
  - apply (Hmemory (InMemoryCache.__init__ InMemoryCache.default_max_size)
             eq_refl).
    vm_compute. reflexivity.
Defined.

End DecoratorLaws.

(** ** The rotation manager: rechecks, recovery, what is handed out *)

Module ProxyLaws.
Import ProxyManager ProxyFacts Calls.

Lemma due_false_iff now last_check :
  due now last_check = false <->
  exists last, last_check = Some last /\ now - last <= recheck_interval.
Proof.
  unfold due. destruct last_check as [last|].
  - rewrite Z.gtb_ltb, Z.ltb_ge. split.
    + intros H. now exists last.
    + intros (l & E & H). now inversion E; subst.
  - split; [discriminate|]. intros (l & E & _). discriminate.
Qed.

(** One iteration of the recheck loop leaves the record of every other
    proxy as it is, and leaves its own proxy not due. *)
Lemma recheck_checks proxy outcome now self :
  (forall q, q <> proxy ->
     proxy_health_checks (snd (recheck proxy outcome now self)) !! q
     = proxy_health_checks self !! q) /\
  (fst (recheck proxy outcome now self) = Ok tt ->
   due now (proxy_health_checks (snd (recheck proxy outcome now self))
              !! proxy) = false).
Proof.
  rewrite recheck_eq.
  assert (Hnow : due now (Some now) = false).
  { apply due_false_iff. exists now. split; [reflexivity|].
    unfold recheck_interval, second. lia. }
  destruct (due now (proxy_health_checks self !! proxy)) eqn:Hdue.
  - destruct outcome.
    + destruct (decide (proxy ∈ unhealthy_proxies self)); cbn.
      * split; [intros q Hq; now apply lookup_insert_ne|].
        intros _. now rewrite lookup_insert_eq.
      * split; [reflexivity|discriminate].
    + cbn. split; [intros q Hq; now apply lookup_insert_ne|].
      intros _. now rewrite lookup_insert_eq.
  - cbn. split; [reflexivity|]. intros _. exact Hdue.
Qed.

Lemma recheck_from_checks_frame ps : forall i probe now self q,
  ~ In q ps ->
  proxy_health_checks (snd (recheck_from i ps probe now self)) !! q
  = proxy_health_checks self !! q.
Proof.
  induction ps as [|proxy rest IH]; intros i probe now self q Hq;
    [reflexivity|].
  rewrite recheck_from_cons.
  pose proof (recheck_checks proxy (probe i proxy) now self) as [Hframe _].
  destruct (recheck proxy (probe i proxy) now self) as [[[]|e] s1];
    cbn [snd] in *.
  - rewrite IH by (intros H; apply Hq; now right).
    apply Hframe. intros ->. apply Hq. now left.
  - apply Hframe. intros ->. apply Hq. now left.
Qed.

(** After the recheck loop over a snapshot of the unhealthy set, no proxy
    of the snapshot is due. *)
Lemma recheck_from_checked ps : forall i probe now self,
  NoDup ps ->
  (forall p, In p ps -> p ∈ unhealthy_proxies self) ->
  forall p, In p ps ->
    due now (proxy_health_checks (snd (recheck_from i ps probe now self))
               !! p) = false.
Proof.
  induction ps as [|proxy rest IH]; intros i probe now self Hnd Hin p Hp;
    [destruct Hp|].
  rewrite recheck_from_cons.
  pose proof (recheck_returns proxy (probe i proxy) now self
                (Hin proxy (or_introl eq_refl))) as Hok.
  pose proof (recheck_checks proxy (probe i proxy) now self) as [_ Hown].
  pose proof (recheck_sets proxy (probe i proxy) now self) as Hsets.
  cbn zeta in Hsets.
  destruct (recheck proxy (probe i proxy) now self) as [[[]|e] s1];
    [|discriminate].
  cbn [fst snd] in *. destruct Hsets as (_ & _ & _ & _ & _ & _ & Hkeep).
  apply NoDup_cons in Hnd as [Hnotin Hnd].
  rewrite list_elem_of_In in Hnotin.
  destruct (in_dec string_dec p rest) as [Hrest|Hrest].
  - apply IH; [exact Hnd| |exact Hrest].
    intros p' Hp'. apply Hkeep; [intros ->; contradiction|].
    apply Hin. now right.
  - destruct Hp as [<-|Hp]; [|contradiction].
    rewrite recheck_from_checks_frame by exact Hrest. now apply Hown.
Qed.

(** A proxy of the snapshot that is due and whose probe succeeds is
    healthy after the loop. *)
Lemma recheck_from_recovers ps : forall i probe now self p,
  NoDup ps ->
  (forall p', In p' ps -> p' ∈ unhealthy_proxies self) ->
  In p ps ->
  due now (proxy_health_checks self !! p) = true ->
  (forall j, probe j p = true) ->
  let self' := snd (recheck_from i ps probe now self) in
  p ∈ healthy_proxies self' /\
  (p ∉ unhealthy_proxies self') /\
  proxy_health_checks self' !! p = Some now.
Proof.
  induction ps as [|proxy rest IH];
    intros i probe now self p Hnd Hin Hp Hdue Hprobe; [destruct Hp|].
  cbn zeta. rewrite recheck_from_cons.
  apply NoDup_cons in Hnd as [Hnotin Hnd].
  rewrite list_elem_of_In in Hnotin.
  destruct (string_dec proxy p) as [->|Hne].
  - (* the turn of [p] *)
    rewrite recheck_eq, Hdue, Hprobe.
    destruct (decide (p ∈ unhealthy_proxies self)) as [Hu|Hu];
      [|destruct Hu; apply Hin; now left].
    match goal with
    | |- context [recheck_from (S i) rest probe now ?s] =>
        pose proof (recheck_from_sets rest (S i) probe now s) as Hsets;
        pose proof (recheck_from_checks_frame rest (S i) probe now s p
                      Hnotin) as Hframe
    end.
    cbn zeta in Hsets. destruct Hsets as (_ & _ & _ & Hgrow & Hshrink & _).
    cbn [healthy_proxies unhealthy_proxies proxy_health_checks] in *.
    split; [set_solver|]. split; [set_solver|].
    rewrite Hframe. apply lookup_insert_eq.
  - (* the turn of another proxy *)
    assert (Hrest : In p rest) by (destruct Hp; [contradiction|assumption]).
    pose proof (recheck_returns proxy (probe i proxy) now self
                  (Hin proxy (or_introl eq_refl))) as Hok.
    pose proof (recheck_checks proxy (probe i proxy) now self) as [Hframe _].
    pose proof (recheck_sets proxy (probe i proxy) now self) as Hsets.
    cbn zeta in Hsets.
    destruct (recheck proxy (probe i proxy) now self) as [[[]|e] s1];
      [|discriminate].
    cbn [fst snd] in *. destruct Hsets as (_ & _ & _ & _ & _ & _ & Hkeep).
    apply IH; try assumption.
    + intros p' Hp'. apply Hkeep; [intros ->; contradiction|].
      apply Hin. now right.
    + rewrite Hframe by congruence. exact Hdue.
Qed.

(** The manager after a call of [get_request_metadata]. *)
Lemma serve1_state_cases q self :
  snd (serve1 q self) = self \/
  snd (serve1 q self)
  = snd (get_random_proxy (probe q) (current_time q) (draw q) self).
Proof.
  unfold serve1, get_request_metadata, get_random_user_agent, bind, Py.get,
    ret, lift.
  destruct (_use_fake_ua self).
  - right.
    now destruct (get_random_proxy (probe q) (current_time q) (draw q) self)
      as [[chosen|e] s1].
  - destruct (random_choice (ua_draw q) (user_agents self)) as [ua|e];
      [|now left].
    right.
    now destruct (get_random_proxy (probe q) (current_time q) (draw q) self)
      as [[chosen|e] s1].
Qed.

(** No demotion: across calls a healthy proxy stays healthy, the
    unhealthy set only loses proxies, and the two sets together hold the
    same proxies as before. *)
Theorem healthy_proxies_are_never_demoted
    (qs : list request) (self : t) :
  healthy_proxies self ⊆ healthy_proxies (snd (serve qs self)) /\
  unhealthy_proxies (snd (serve qs self)) ⊆ unhealthy_proxies self /\
  healthy_proxies (snd (serve qs self))
    ∪ unhealthy_proxies (snd (serve qs self))
  = healthy_proxies self ∪ unhealthy_proxies self.
Proof.
  revert self. induction qs as [|q qs IH]; intros self.
  - cbn. repeat split; set_solver.
  - rewrite serve_cons. cbn [snd].
    specialize (IH (snd (serve1 q self))).
    destruct IH as (IH1 & IH2 & IH3).
    pose proof (get_random_proxy_sets (probe q) (current_time q) (draw q)
                  self) as H.
    cbn zeta in H. destruct H as (_ & A2 & _ & A4 & A5 & _).
    destruct (serve1_state_cases q self) as [E|E]; rewrite E in *.
    + now repeat split.
    + split; [set_solver|]. split; [set_solver|congruence].
Qed.

(** Rechecks are rate limited: after a call at some instant on a pool
    that is not empty, every unhealthy proxy has a health check on record
    that is at most 30 minutes old at that instant; a further call at the
    same instant changes nothing, whatever the probes would answer. *)
Theorem rechecks_are_rate_limited
    (probe : nat -> string -> bool) (now : Z) (draw : nat) (self : t) :
  let self' := snd (get_random_proxy probe now draw self) in
  (proxies self <> [] ->
   forall u, u ∈ unhealthy_proxies self' ->
     exists last, proxy_health_checks self' !! u = Some last /\
                  now - last <= recheck_interval) /\
  (forall probe' draw',
     snd (get_random_proxy probe' now draw' self') = self').
Proof.
  intros self'.
  assert (Hchecked : proxies self <> [] ->
    forall u, u ∈ unhealthy_proxies self' ->
      due now (proxy_health_checks self' !! u) = false).
  { intros Hne u Hu. subst self'.
    destruct (get_random_proxy_spec probe now draw self)
      as (chosen & s1 & Hget & _ & Hpool).
    rewrite Hget in *. cbn [snd] in *.
    destruct (Hpool Hne) as (-> & _).
    pose proof (recheck_from_sets (elements (unhealthy_proxies self)) 0
                  probe now self) as Hsets.
    cbn zeta in Hsets. destruct Hsets as (_ & _ & _ & _ & Hshrink & _).
    apply recheck_from_checked.
    - apply NoDup_elements.
    - intros p Hp. apply elem_of_elements. now apply list_elem_of_In.
    - apply list_elem_of_In, elem_of_elements. set_solver. }
  split.
  - intros Hne u Hu. now apply due_false_iff, Hchecked.
  - intros probe' draw'.
    pose proof (get_random_proxy_sets probe now draw self) as Hs.
    cbn zeta in Hs. destruct Hs as ((Hps & _) & _). fold self' in Hps.
    destruct (proxies self) as [|a l] eqn:Hl.
    + destruct (get_random_proxy_spec probe' now draw' self')
        as (chosen & s2 & Hget & Hempty & _).
      rewrite Hget. cbn [snd]. now destruct (Hempty Hps).
    + pose proof (get_random_proxy_sets probe' now draw' self') as Hs.
      cbn zeta in Hs. destruct Hs as (_ & _ & _ & _ & _ & _ & Hsame).
      apply Hsame. apply Hchecked. discriminate.
Qed.

(** [_check_all_proxies] records a health check for no proxy but those
    whose probe succeeds. *)
Lemma check_all_proxies_from_checks ps : forall i probe clock self p,
  proxy_health_checks (snd (_check_all_proxies_from i ps probe clock self))
    !! p = proxy_health_checks self !! p \/
  exists j, ps !! j = Some p /\ probe (i + j)%nat p = true.
Proof.
  induction ps as [|proxy rest IH]; intros i probe clock self p;
    [now left|].
  cbn [_check_all_proxies_from]. unfold bind at 1.
  destruct (probe i proxy) eqn:Hprobe.
  - unfold bind at 1, add_healthy, set_health_check. cbn [fst snd].
    match goal with
    | |- context [_check_all_proxies_from (S i) rest probe clock ?s] =>
        destruct (IH (S i) probe clock s p) as [E|(j & Hj & Hp)]
    end.
    + rewrite E. cbn [proxy_health_checks].
      destruct (string_dec proxy p) as [->|Hne].
      * right. exists 0%nat. now rewrite Nat.add_0_r.
      * left. now apply lookup_insert_ne.
    + right. exists (S j). split; [exact Hj|]. now rewrite <- plus_n_Sm.
  - unfold add_unhealthy. cbn [fst snd].
    match goal with
    | |- context [_check_all_proxies_from (S i) rest probe clock ?s] =>
        destruct (IH (S i) probe clock s p) as [E|(j & Hj & Hp)]
    end.
    + left. exact E.
    + right. exists (S j). split; [exact Hj|]. now rewrite <- plus_n_Sm.
Qed.

Lemma check_all_proxies_only_adds_aux probe clock self :
  let self' := snd (_check_all_proxies probe clock self) in
  fst (_check_all_proxies probe clock self) = Ok tt /\
  proxies self' = proxies self /\
  healthy_proxies self ⊆ healthy_proxies self' /\
  unhealthy_proxies self ⊆ unhealthy_proxies self' /\
  (forall j p, proxies self !! j = Some p ->
     if probe j p then p ∈ healthy_proxies self'
     else p ∈ unhealthy_proxies self').
Proof.
  intros self'. subst self'. unfold _check_all_proxies, bind, Py.get.
  destruct (check_all_proxies_from_spec (proxies self) 0 probe clock self)
    as (self' & -> & (Hps & _) & Hh & Hu).
  cbn [fst snd]. split; [reflexivity|]. split; [exact Hps|].
  split; [intros p Hp; apply Hh; now left|].
  split; [intros p Hp; apply Hu; now left|].
  intros j p Hj. destruct (probe j p) eqn:E; [apply Hh|apply Hu];
    right; exists j; now split.
Qed.

(** [_check_all_proxies] only adds: it raises nothing, sorts every proxy
    of the pool by the outcome of its probe, and removes no proxy from
    either set, so that a proxy that was healthy and fails its probe ends
    in both sets. *)
Theorem check_all_proxies_only_adds
    (probe : nat -> string -> bool) (clock : nat -> Z) (self : t) :
  let self' := snd (_check_all_proxies probe clock self) in
  fst (_check_all_proxies probe clock self) = Ok tt /\
  proxies self' = proxies self /\
  healthy_proxies self ⊆ healthy_proxies self' /\
  unhealthy_proxies self ⊆ unhealthy_proxies self' /\
  (forall j p, proxies self !! j = Some p ->
     if probe j p then p ∈ healthy_proxies self'
     else p ∈ unhealthy_proxies self') /\
  (forall j p, proxies self !! j = Some p ->
     p ∈ healthy_proxies self -> probe j p = false ->
     p ∈ healthy_proxies self' /\ p ∈ unhealthy_proxies self').
Proof.
  intros self'. subst self'. unfold _check_all_proxies, bind, Py.get.
  destruct (check_all_proxies_from_spec (proxies self) 0 probe clock self)
    as (self' & -> & (Hps & _) & Hh & Hu).
  cbn [fst snd]. split; [reflexivity|]. split; [exact Hps|].
  split; [intros p Hp; apply Hh; now left|].
  split; [intros p Hp; apply Hu; now left|].
  split.
  - intros j p Hj. destruct (probe j p) eqn:E; [apply Hh|apply Hu];
      right; exists j; now split.
  - intros j p Hj Hp E. split; [apply Hh; now left|].
    apply Hu. right. exists j. now split.
Qed.

(** The update of the pool in scraper.py replaces the list and, when
    health checking is on, probes the new list; it forgets nothing: a
    proxy of the old pool stays in the set it was in, listed again or
    not. An absent or empty list changes nothing. *)
Theorem pool_update_forgets_nothing
    (ps : option (list string)) (probe : nat -> string -> bool)
    (clock : nat -> Z) (self : t) :
  let self' := snd (update_proxy_list ps probe clock self) in
  fst (update_proxy_list ps probe clock self) = Ok tt /\
  proxies self' = or_list ps (proxies self) /\
  healthy_proxies self ⊆ healthy_proxies self' /\
  unhealthy_proxies self ⊆ unhealthy_proxies self' /\
  (truthy ps = false -> self' = self) /\
  (truthy ps && check_proxy_health self = true ->
   forall j p, proxies self' !! j = Some p ->
     if probe j p then p ∈ healthy_proxies self'
     else p ∈ unhealthy_proxies self').
Proof.
  intros self'. subst self'.
  destruct ps as [[|p0 l]|]; cbn [update_proxy_list or_list truthy andb];
    [repeat split; try reflexivity; discriminate| |
     repeat split; try reflexivity; discriminate].
  unfold bind, set_proxies, Py.get. cbn beta iota.
  cbn [check_proxy_health].
  destruct (check_proxy_health self) eqn:Hcheck.
  - match goal with
    | |- context [_check_all_proxies probe clock ?s] =>
        pose proof (check_all_proxies_only_adds_aux probe clock s) as H
    end.
    cbn zeta in H. cbn [proxies healthy_proxies unhealthy_proxies] in H.
    destruct H as (H1 & H2 & H3 & H4 & H5).
    split; [exact H1|]. split; [exact H2|]. split; [exact H3|].
    split; [exact H4|]. split; [discriminate|].
    intros _ j p Hj. rewrite H2 in Hj. now apply H5.
  - unfold ret. cbn [fst snd proxies healthy_proxies unhealthy_proxies].
    repeat split; try reflexivity; discriminate.
Qed.

(** The settings and the records of the manager that [__init__]
    builds. *)
Lemma init_settings ps_arg uas check fake_ok probe0 clock :
  let self := snd (__init__ ps_arg uas check fake_ok probe0 clock) in
  _use_fake_ua self = fake_ok /\
  user_agents self = or_list uas fallback_user_agents /\
  forall p,
    proxy_health_checks self !! p = None \/
    exists j, proxies self !! j = Some p /\ probe0 j p = true.
Proof.
  unfold __init__.
  destruct (truthy ps_arg && check); [|cbn; repeat split; now left].
  unfold _check_all_proxies, bind, Py.get.
  match goal with
  | |- context [_check_all_proxies_from 0 (proxies ?s) probe0 clock ?s] =>
      destruct (check_all_proxies_from_spec (proxies s) 0 probe0 clock s)
        as (self & Hrun & (E1 & _ & E3 & E4) & _);
      pose proof (check_all_proxies_from_checks (proxies s) 0 probe0 clock s)
        as Hchecks
  end.
  rewrite Hrun in *. cbn [snd] in *. cbn [proxies] in *.
  split; [exact E3|]. split; [exact E4|].
  intros p. rewrite E1. destruct (Hchecks p) as [E|H]; [|now right].
  left. now rewrite E.
Qed.

(** A failed probe of [__init__] leaves no record, so that the first call
    probes the proxy again, however soon it comes: a proxy that failed at
    construction and answers at the first call is healthy after it, with
    that call on record as its health check. *)
Theorem failed_proxy_is_probed_again_on_the_first_call
    (ps : list string) (uas : option (list string)) (fake_ok : bool)
    (probe0 : nat -> string -> bool) (clock : nat -> Z)
    (q : request) (j : nat) (u : string) :
  NoDup ps ->
  ps !! j = Some u ->
  probe0 j u = false ->
  (forall i, probe q i u = true) ->
  let self0 := snd (__init__ (Some ps) uas true fake_ok probe0 clock) in
  let self1 := snd (serve1 q self0) in
  u ∈ unhealthy_proxies self0 /\
  proxy_health_checks self0 !! u = None /\
  u ∈ healthy_proxies self1 /\
  (u ∉ unhealthy_proxies self1) /\
  proxy_health_checks self1 !! u = Some (current_time q).
Proof.
  intros Hnd Hj Hfail Hanswer self0 self1.
  assert (Hor : or_list (Some ps) [] = ps) by now destruct ps.
  pose proof (init_settings (Some ps) uas true fake_ok probe0 clock)
    as (_ & _ & Hchecks).
  cbn zeta in Hchecks. fold self0 in Hchecks.
  destruct (ProxySpec.init_spec (Some ps) uas true fake_ok probe0 clock)
    as (s0 & Hinit & Hps & Hua & Hsets & _).
  assert (s0 = self0) as -> by (subst self0; now rewrite Hinit).
  rewrite Hor in Hps. destruct (Hsets eq_refl) as [_ Hu].
  assert (Hunhealthy : u ∈ unhealthy_proxies self0).
  { apply Hu. exists j. rewrite Hps. now split. }
  assert (Hnone : proxy_health_checks self0 !! u = None).
  { destruct (Hchecks u) as [E|(j' & Hj' & Hok)]; [exact E|].
    rewrite Hps in Hj'.
    assert (j' = j) by (eapply NoDup_lookup; eauto). subst j'. congruence. }
  split; [exact Hunhealthy|]. split; [exact Hnone|].
  subst self1. rewrite serve1_state by exact Hua.
  destruct (get_random_proxy_spec (probe q) (current_time q) (draw q) self0)
    as (chosen & s1 & Hget & _ & Hpool).
  rewrite Hget. cbn [snd].
  destruct Hpool as (-> & _).
  { rewrite Hps. intros E. rewrite E in Hj. discriminate. }
  apply recheck_from_recovers.
  - apply NoDup_elements.
  - intros p Hp. apply elem_of_elements. now apply list_elem_of_In.
  - now apply list_elem_of_In, elem_of_elements.
  - now rewrite Hnone.
  - exact Hanswer.
Qed.

Lemma failed_proxy_is_probed_again_on_the_first_call_witness :
  NoDup [p1; p2] /\
  p2 ∈ unhealthy_proxies
         (snd (__init__ (Some [p1; p2]) None true false first_answers
                 (fun _ => 0))) /\
  p2 ∈ healthy_proxies
         (snd (serve1 (recovery_request 1)
                 (snd (__init__ (Some [p1; p2]) None true false
                         first_answers (fun _ => 0))))) /\
  proxy_health_checks
    (snd (serve1 (recovery_request 1)
            (snd (__init__ (Some [p1; p2]) None true false first_answers
                    (fun _ => 0))))) !! p2 = Some 1.
Proof.
  assert (Hnd : NoDup [p1; p2])
    by (apply (bool_decide_unpack _); vm_compute; exact I).
  destruct (failed_proxy_is_probed_again_on_the_first_call [p1; p2] None
              false first_answers (fun _ => 0) (recovery_request 1)
              1%nat p2 Hnd eq_refl eq_refl (fun _ => eq_refl))
    as (Hbefore & _ & Hafter & _ & Hcheck).
  exact (conj Hnd (conj Hbefore (conj Hafter Hcheck))).
Defined.

(** What a call of [get_request_metadata] returns on a manager that can
    produce a user agent: the user agent and the choice of
    [get_random_proxy]. *)
Lemma get_request_metadata_user_agent fake_ua ua_draw probe now draw self :
  ua_ready self ->
  exists user_agent chosen self',
    get_request_metadata fake_ua ua_draw probe now draw self
    = (Ok {| headers := ("User-Agent", user_agent) :: fixed_headers;
             egress := chosen |}, self') /\
    get_random_proxy probe now draw self = (Ok chosen, self') /\
    (_use_fake_ua self = true -> user_agent = fake_ua) /\
    (_use_fake_ua self = false -> In user_agent (user_agents self)).
Proof.
  intros Hua.
  destruct (get_random_proxy_spec probe now draw self)
    as (chosen & self' & Hget & _).
  unfold get_request_metadata, get_random_user_agent, bind, Py.get, ret, lift.
  destruct (_use_fake_ua self) eqn:Hfake.
  - rewrite Hget. exists fake_ua, chosen, self'.
    repeat split; congruence.
  - destruct Hua as [Hua|Hua]; [congruence|].
    destruct (random_choice_In ua_draw _ Hua) as (ua & Hchoice & HIn).
    rewrite Hchoice, Hget. exists ua, chosen, self'.
    repeat split; congruence.
Qed.

(** The User-Agent header. When the generator of user agents could be
    built, every call sends what the generator gives, and a list given to
    the constructor is not used; otherwise every call sends a member of
    that list, or of the fallbacks when the list is absent or empty. *)
Theorem user_agent_header_is_generated_or_configured
    (ps_arg uas : option (list string)) (check fake_ok : bool)
    (probe0 : nat -> string -> bool) (clock : nat -> Z)
    (qs : list request) (q : request) :
  exists user_agent chosen self',
    serve1 q (snd (serve qs
                     (snd (__init__ ps_arg uas check fake_ok probe0 clock))))
    = (Ok {| headers := ("User-Agent", user_agent) :: fixed_headers;
             egress := chosen |}, self') /\
    (fake_ok = true -> user_agent = fake_ua q) /\
    (fake_ok = false ->
     In user_agent
        (match uas with
         | Some (a :: l) => a :: l
         | Some [] | None => fallback_user_agents
         end)).
Proof.
  pose proof (init_settings ps_arg uas check fake_ok probe0 clock)
    as (Hfake & Huas & _).
  cbn zeta in Hfake, Huas.
  destruct (ProxySpec.init_spec ps_arg uas check fake_ok probe0 clock)
    as (self0 & Hinit & _ & Hua0 & _).
  rewrite Hinit in *. cbn [snd] in *.
  destruct (serve_sets qs self0 Hua0) as (Hset & _).
  set (self := snd (serve qs self0)) in *.
  assert (Hua : ua_ready self)
    by (eapply ua_ready_settings; [exact Hset|exact Hua0]).
  destruct Hset as (_ & _ & E3 & E4).
  unfold serve1.
  destruct (get_request_metadata_user_agent (fake_ua q) (ua_draw q) (probe q)
              (current_time q) (draw q) self Hua)
    as (ua & chosen & self' & Hmd & _ & Hgen & Hlist).
  exists ua, chosen, self'. split; [exact Hmd|].
  split; [intros ->; apply Hgen; congruence|].
  intros ->. change (In ua (or_list uas fallback_user_agents)).
  rewrite <- Huas, <- E4. apply Hlist. congruence.
Qed.

(** What is handed out is configured: on every manager that [__init__]
    builds, after any calls, the egress path of a call is absent, when the
    pool is empty, or carries one proxy of the configured list, under both
    schemes. *)
Theorem egress_is_a_configured_proxy
    (ps_arg uas : option (list string)) (check fake_ok : bool)
    (probe0 : nat -> string -> bool) (clock : nat -> Z)
    (qs : list request) (q : request) :
  exists md self',
    serve1 q (snd (serve qs
                     (snd (__init__ ps_arg uas check fake_ok probe0 clock))))
    = (Ok md, self') /\
    (ps_arg = None \/ ps_arg = Some [] <-> egress md = None) /\
    (forall d, egress md = Some d ->
       exists p, (exists l, ps_arg = Some l /\ In p l) /\
                 d = [("http", p); ("https", p)]).
Proof.
  destruct (ProxySpec.init_spec ps_arg uas check fake_ok probe0 clock)
    as (self0 & Hinit & Hps & Hua0 & Hon & Hoff).
  rewrite Hinit. cbn [snd].
  assert (Hin0 : forall p,
    p ∈ healthy_proxies self0 ∪ unhealthy_proxies self0 ->
    In p (proxies self0)).
  { intros p Hp. destruct check.
    - destruct (Hon eq_refl) as [Hh Hu].
      apply list_elem_of_In, list_elem_of_lookup.
      apply elem_of_union in Hp as [Hp|Hp];
        [apply Hh in Hp|apply Hu in Hp]; destruct Hp as (j & Hj & _); eauto.
    - destruct (Hoff eq_refl) as [Hh Hu]. rewrite Hh, Hu in Hp. set_solver. }
  destruct (serve_sets qs self0 Hua0) as (Hset & Hunion & _).
  set (self := snd (serve qs self0)) in *.
  assert (Hua : ua_ready self)
    by (eapply ua_ready_settings; [exact Hset|exact Hua0]).
  destruct Hset as (Hpool & _).
  unfold serve1.
  destruct (get_request_metadata_spec (fake_ua q) (ua_draw q) (probe q)
              (current_time q) (draw q) self Hua)
    as (ua & chosen & self' & Hmd & Hget).
  eexists _, self'. split; [exact Hmd|]. cbn [egress].
  destruct (get_random_proxy_spec (probe q) (current_time q) (draw q) self)
    as (chosen' & self'' & Hget' & Hempty & Hfull).
  rewrite Hget in Hget'. inversion Hget'; subst chosen' self''.
  pose proof (get_random_proxy_sets (probe q) (current_time q) (draw q) self)
    as Hs.
  cbn zeta in Hs. rewrite Hget in Hs. cbn [snd] in Hs.
  destruct Hs as (_ & Hunion' & _).
  rewrite Hpool, Hps in *.
  assert (Hlist : forall p, In p (or_list ps_arg []) ->
                            exists l, ps_arg = Some l /\ In p l).
  { intros p Hp. destruct ps_arg as [[|a l]|]; cbn in Hp; try tauto.
    now exists (a :: l). }
  destruct (or_list ps_arg []) as [|a l] eqn:Hor.
  - destruct (Hempty eq_refl) as [-> _].
    split; [|discriminate]. split; [reflexivity|]. intros _.
    destruct ps_arg as [[|b l]|]; [now right|discriminate|now left].
  - destruct (Hfull ltac:(discriminate)) as (_ & Hhealthy & Hnone).
    assert (Hchosen : exists p, In p (a :: l) /\
                                chosen = Some (proxy_dict p)).
    { destruct (decide (healthy_proxies self' = ∅)) as [E|E].
      - rewrite (Hnone E). eexists. split; [|reflexivity].
        apply nth_In. apply Nat.mod_upper_bound. discriminate.
      - destruct (Hhealthy E) as (p & Hp & ->). exists p.
        split; [|reflexivity]. apply Hin0.
        rewrite <- Hunion, <- Hunion'. set_solver. }
    destruct Hchosen as (p & Hp & ->). split.
    + split; [|discriminate].
      intros [->| ->]; discriminate.
    + intros d Hd. inversion Hd; subst d. exists p.
      split; [now apply Hlist|reflexivity].
Qed.

End ProxyLaws.
